(** * picotx: compensating transactions

    A verification development for the picotx library: the context store
    ([context.ts]), the atomic wrappers ([atomic.ts]) and the transaction
    orchestrator ([transaction.ts]).

    The library is asynchronous JavaScript.  Every promise the library
    creates is awaited at once by the function that created it, so under
    the single-task scheduling the library is written for, [await f(x)] is
    sequential composition: run [f x] to its settlement, then continue with
    the value, or propagate the rejection as a thrown value.  A computation
    is therefore a function from the machine state to a settlement and a new
    machine state.

    The machine state has four parts: the heap of context objects, the
    module-level context stack of [context.ts], the state of the host
    application, and the trace of the calls made to the host's actions and
    compensations.  The body of a transaction is any computation.  Actions
    are functions of the host application: they read and write the host
    state.  In the first part of the file compensations are host functions
    too; module [Reentrant] has the library with compensations that await
    atomic functions, and the rollback loop over the live array. *)

From Stdlib Require Import ZArith List Lia.
From stdpp Require Import base list strings.

Set Warnings "-register-all".

Open Scope Z_scope.
Open Scope nat_scope.

(** ** JavaScript values *)

(** The values that flow through the library: action arguments and results,
    and whatever gets thrown.  [VError m] is [new Error(m)] and
    [VAggregateError es m] is [new AggregateError(es, m)]. *)
Inductive value : Type :=
| VUndefined
| VNumber (n : Z)
| VString (s : string)
| VError (message : string)
| VAggregateError (errors : list value) (message : string).

(** How an awaited promise settles. *)
Inductive outcome (A : Type) : Type :=
| Resolved (a : A)
| Rejected (reason : value).
Arguments Resolved {A} a.
Arguments Rejected {A} reason.

(** [arr[i]] on a JavaScript array: [undefined] outside [0 .. length-1]. *)
Definition array_at {A : Type} (arr : list A) (i : Z) : option A :=
  if (i <? 0)%Z then None else arr !! Z.to_nat i.

(** [arr.push(x)] appends at the end, [arr.pop()] removes the last element
    and leaves an empty array alone, [arr.reverse()] reverses in place. *)
Definition array_push {A : Type} (arr : list A) (x : A) : list A := arr ++ [x].
Definition array_pop {A : Type} (arr : list A) : list A := removelast arr.
Definition array_reverse {A : Type} (arr : list A) : list A := rev arr.

Section Engine.

(** The state of the host application: everything the caller's actions and
    compensations read and write (payment provider, database, the
    [callOrder] array of the tests).  Actions and compensations are the
    caller's external collaborators; they act on the host state. *)
Context {W : Type}.

(** An asynchronous function of the host application. *)
Definition host (A : Type) : Type := W -> outcome A * W.

(** The type of [action] and of [compensation] in [atomic] and
    [atomicExplicit]: [(...args: A) => Promise<R>] and
    [(result: R, ...args: A) => Promise<void>]. *)
Definition action_fn : Type := list value -> host value.
Definition compensation_fn : Type := value -> list value -> host unit.

(** The closure [() => compensation(result, ...args)] that the atomic
    wrappers push: the three captured variables. *)
Record Closure : Type := mkClosure {
  clo_compensation : compensation_fn;
  clo_result : value;
  clo_args : list value
}.

(** [interface TransactionContext { compensations: Array<() => Promise<void>> }] *)
Record TransactionContext : Type := mkContext {
  compensations : list Closure
}.

(** Context objects live in the heap and are handled by reference: the
    orchestrator's local [ctx], the entry on the context stack and the
    argument handed to an explicit-mode body all alias one object. *)
Definition ref : Type := nat.

(** What the host functions were asked to do, in order.  The trace is
    only written by [call_action] and [call_closure] below. *)
Inductive event : Type :=
| ActionCall (action : action_fn) (args : list value)
| CompensationCall (compensation : compensation_fn) (result : value) (args : list value).

Record State : Type := mkState {
  heap : list TransactionContext;
  transactionContextStack : list ref;
  world : W;
  trace : list event
}.

Definition set_heap (h : list TransactionContext) (s : State) : State :=
  mkState h (transactionContextStack s) (world s) (trace s).
Definition set_stack (st : list ref) (s : State) : State :=
  mkState (heap s) st (world s) (trace s).

(** ** Computations *)

Definition M (A : Type) : Type := State -> outcome A * State.

Definition ret {A : Type} (a : A) : M A := fun s => (Resolved a, s).

Definition throw {A : Type} (e : value) : M A := fun s => (Rejected e, s).

Definition bind {A B : Type} (m : M A) (k : A -> M B) : M B :=
  fun s =>
    match m s with
    | (Resolved a, s') => k a s'
    | (Rejected e, s') => (Rejected e, s')
    end.

(** [try { m } catch (e) { h e }] *)
Definition try_catch {A : Type} (m : M A) (h : value -> M A) : M A :=
  fun s =>
    match m s with
    | (Resolved a, s') => (Resolved a, s')
    | (Rejected e, s') => h e s'
    end.

#[global] Instance M_ret : MRet M := @ret.
#[global] Instance M_bind : MBind M := fun A B k m => bind m k.

(** ** context.ts *)

(** [transactionContextStack[transactionContextStack.length - 1]] *)
Definition getCurrentTransactionContext : M (option ref) :=
  fun s =>
    let stack := transactionContextStack s in
    (Resolved (array_at stack (Z.of_nat (length stack) - 1)), s).

(** [transactionContextStack.push(ctx)] *)
Definition pushTransactionContext (ctx : ref) : M unit :=
  fun s => (Resolved tt, set_stack (array_push (transactionContextStack s) ctx) s).

(** [transactionContextStack.pop()] *)
Definition popTransactionContext : M unit :=
  fun s => (Resolved tt, set_stack (array_pop (transactionContextStack s)) s).

(** ** Context objects *)

(** [{ compensations: [] }]: a fresh object, at a fresh reference. *)
Definition new_context : M ref :=
  fun s => (Resolved (length (heap s)), set_heap (heap s ++ [mkContext []]) s).

(** [ctx.compensations], read through the reference. *)
Definition ctx_compensations (ctx : ref) (s : State) : list Closure :=
  match heap s !! ctx with
  | Some o => compensations o
  | None => []
  end.

(** [ctx.compensations.push(c)] *)
Definition compensations_push (ctx : ref) (c : Closure) : M unit :=
  fun s =>
    (Resolved tt,
     set_heap (alter (fun o => mkContext (array_push (compensations o) c)) ctx (heap s)) s).

(** [ctx.compensations.reverse()]: reverses the array of the object in
    place and evaluates to that array. *)
Definition reverse_in_place (ctx : ref) (h : list TransactionContext)
    : list TransactionContext :=
  alter (fun o => mkContext (array_reverse (compensations o))) ctx h.

Definition compensations_reverse (ctx : ref) : M (list Closure) :=
  fun s =>
    let s' := set_heap (reverse_in_place ctx (heap s)) s in
    (Resolved (ctx_compensations ctx s'), s').

(** ** Calls into the host application *)

(** [await action(...args)] *)
Definition call_action (action : action_fn) (args : list value) : M value :=
  fun s =>
    let '(o, w) := action args (world s) in
    (o, mkState (heap s) (transactionContextStack s) w
          (trace s ++ [ActionCall action args])).

(** [await rollback()] where [rollback] is [() => compensation(result, ...args)] *)
Definition call_closure (rollback : Closure) : M unit :=
  fun s =>
    let '(o, w) :=
      clo_compensation rollback (clo_result rollback) (clo_args rollback) (world s) in
    (o, mkState (heap s) (transactionContextStack s) w
          (trace s ++ [CompensationCall (clo_compensation rollback)
                         (clo_result rollback) (clo_args rollback)])).

(** ** atomic.ts *)

(** [atomic(action, compensation)] is the function [async (...args) => ...];
    this is that function applied to [args]. *)
Definition atomic (action : action_fn) (compensation : compensation_fn)
    (args : list value) : M value :=
  ctx ← getCurrentTransactionContext;
  match ctx with
  | None => throw (VError "Cannot find current transaction context")
  | Some ctx =>
      result ← call_action action args;
      compensations_push ctx (mkClosure compensation result args);;
      mret result
  end.

(** [atomicExplicit(action, compensation)(ctx)(...args)] *)
Definition atomicExplicit (action : action_fn) (compensation : compensation_fn)
    (ctx : ref) (args : list value) : M value :=
  result ← call_action action args;
  compensations_push ctx (mkClosure compensation result args);;
  mret result.

(** ** transaction.ts *)

(** The body handed to [transaction]: [fn.length] is its declared number
    of parameters; [fn_call (Some ctx)] is [fn(ctx)] and [fn_call None] is
    [fn()]. *)
Record body_fn : Type := mkBody {
  fn_length : nat;
  fn_call : option ref -> M value
}.

(** The loop [for (const rollback of ...) { try { await rollback() }
    catch (rollbackError) { rollbackErrors.push(rollbackError) } }],
    threading [rollbackErrors].  Compensations are host functions here,
    so the array is not written to while it is iterated and the loop runs
    over its value; [Reentrant.rollback_loop] is the loop with an index
    into the live array, for compensations that call the library. *)
Fixpoint rollback_loop (rollbacks : list Closure) (rollbackErrors : list value)
    : M (list value) :=
  match rollbacks with
  | [] => mret rollbackErrors
  | rollback :: rest =>
      rollbackErrors' ←
        try_catch (call_closure rollback;; mret rollbackErrors)
                  (fun rollbackError => mret (array_push rollbackErrors rollbackError));
      rollback_loop rest rollbackErrors'
  end.

Definition transaction (fn : body_fn) : M value :=
  ctx ← new_context;
  pushTransactionContext ctx;;
  try_catch
    (result ← (if 0 <? fn_length fn
               then fn_call fn (Some ctx)
               else fn_call fn None);
     popTransactionContext;;
     mret result)
    (fun error =>
       rollbacks ← compensations_reverse ctx;
       rollbackErrors ← rollback_loop rollbacks [];
       popTransactionContext;;
       if 0 <? length rollbackErrors
       then throw (VAggregateError rollbackErrors "One or more rollbacks failed")
       else throw error).

(** ** Reading a run *)

(** The body as the orchestrator calls it: [fn(ctx)] when the body
    declares a parameter, [fn()] otherwise. *)
Definition call_body (fn : body_fn) (ctx : ref) : M value :=
  if 0 <? fn_length fn then fn_call fn (Some ctx) else fn_call fn None.

(** The state in which the body of a transaction called in [s] starts:
    the fresh context is allocated and pushed. *)
Definition fresh_ctx (s : State) : ref := length (heap s).
Definition enter (s : State) : State :=
  set_stack (array_push (transactionContextStack s) (fresh_ctx s))
    (set_heap (heap s ++ [mkContext []]) s).

(** The context that is current in a state. *)
Definition current (s : State) : option ref :=
  array_at (transactionContextStack s)
           (Z.of_nat (length (transactionContextStack s)) - 1).

(** Running a registered closure is the call
    [compensation(result, ...args)] on the captured values. *)
Definition invoke (c : Closure) : host unit :=
  clo_compensation c (clo_result c) (clo_args c).
Definition closure_event (c : Closure) : event :=
  CompensationCall (clo_compensation c) (clo_result c) (clo_args c).

(** A rollback pass, in the words of the specification: every
    compensation of the list is attempted once, in the order of the list,
    whatever the earlier ones did; the pass yields how each attempt
    settled and the host state it leaves. *)
Fixpoint rollback_pass (cs : list Closure) (w : W) : list (outcome unit) * W :=
  match cs with
  | [] => ([], w)
  | c :: rest =>
      let '(o, w1) := invoke c w in
      let '(os, w2) := rollback_pass rest w1 in
      (o :: os, w2)
  end.

(** The failures among the attempts, in the order they were met. *)
Fixpoint failures (os : list (outcome unit)) : list value :=
  match os with
  | [] => []
  | Resolved _ :: rest => failures rest
  | Rejected e :: rest => e :: failures rest
  end.

(** What the orchestrator raises after a rollback pass that collected
    [errs], when the body had failed with [error]. *)
Definition rollback_verdict (errs : list value) (error : value) : value :=
  match errs with
  | [] => error
  | _ :: _ => VAggregateError errs "One or more rollbacks failed"
  end.

(** ** Bodies made of atomic calls

    The bodies the rollback-order property speaks of:
    [async (ctx) => { await site_1; ...; await site_N; throw error }],
    where each site is a call of an implicit atomic function,
    [atomic(action, compensation)(...args)], or of an explicit one on the
    body's own parameter, [atomicExplicit(action, compensation)(ctx)(...args)]. *)
Record call_site : Type := mkSite {
  site_explicit : bool;
  site_action : action_fn;
  site_compensation : compensation_fn;
  site_args : list value
}.

(** A body that declares no parameter has no [ctx] to hand to an explicit
    atomic function: naming it is a reference error. *)
Definition call_site_run (octx : option ref) (c : call_site) : M value :=
  if site_explicit c then
    match octx with
    | Some ctx => atomicExplicit (site_action c) (site_compensation c) ctx (site_args c)
    | None => throw (VError "ctx is not defined")
    end
  else atomic (site_action c) (site_compensation c) (site_args c).

Fixpoint atomic_calls (octx : option ref) (sites : list call_site) : M unit :=
  match sites with
  | [] => mret tt
  | c :: rest => call_site_run octx c;; atomic_calls octx rest
  end.

Definition calls_then_throw (params : nat) (sites : list call_site) (error : value)
    : body_fn :=
  mkBody params (fun octx => atomic_calls octx sites;; throw error).

(** The sites fit a body of [params] parameters: explicit sites need the
    parameter. *)
Definition sites_fit (params : nat) (sites : list call_site) : Prop :=
  params = 0 -> Forall (fun c => site_explicit c = false) sites.

(** The actions of the sites, run one after the other on the host: the
    results and the final host state when every one of them resolves. *)
Fixpoint actions_resolve (sites : list call_site) (w : W) : option (list value * W) :=
  match sites with
  | [] => Some ([], w)
  | c :: rest =>
      match site_action c (site_args c) w with
      | (Resolved result, w1) =>
          match actions_resolve rest w1 with
          | Some (results, w2) => Some (result :: results, w2)
          | None => None
          end
      | (Rejected _, _) => None
      end
  end.

(** What the N successful calls register, in call order: for each site its
    compensation, the result its action returned and its arguments. *)
Fixpoint registered (sites : list call_site) (results : list value) : list Closure :=
  match sites, results with
  | c :: sites', result :: results' =>
      mkClosure (site_compensation c) result (site_args c) :: registered sites' results'
  | _, _ => []
  end.

Definition action_event (c : call_site) : event :=
  ActionCall (site_action c) (site_args c).

(** ** Bodies that nest a transaction

    [async (ctx) => { const x = await pre; const y = await transaction(inner);
    return await post }]: the body of an outer transaction that, after some
    work of its own, runs an inner transaction and does not catch its
    failure.  The inner body may use whatever the outer body has in scope. *)
Definition nesting (params : nat)
    (pre : option ref -> M value)
    (inner : option ref -> value -> body_fn)
    (post : option ref -> value -> value -> M value) : body_fn :=
  mkBody params (fun octx =>
    x ← pre octx;
    y ← transaction (inner octx x);
    post octx x y).

(** ** More bodies made of atomic calls *)

(** The argument the orchestrator hands to a body of [params] parameters
    when called in [s]. *)
Definition body_argument (params : nat) (s : State) : option ref :=
  if 0 <? params then Some (fresh_ctx s) else None.

(** [async (ctx) => { await site_1; ...; await site_N; return v }] *)
Definition calls_then_return (params : nat) (sites : list call_site) (v : value)
    : body_fn :=
  mkBody params (fun octx => atomic_calls octx sites;; mret v).


(** The same call site, written in the other form. *)
Definition as_form (explicit : bool) (c : call_site) : call_site :=
  mkSite explicit (site_action c) (site_compensation c) (site_args c).





(** The state of a program that has not called the library yet. *)
Definition initial (w : W) : State := mkState [] [] w [].

(** A computation that leaves the context stack as it found it. *)
Definition balanced {A : Type} (m : M A) : Prop :=
  forall s, transactionContextStack (m s).2 = transactionContextStack s.

(** A computation that deallocates no context object. *)
Definition keeps_heap {A : Type} (m : M A) : Prop :=
  forall s, length (heap s) <= length (heap (m s).2).

(** [await f()] for a host function called by a body directly. *)
Definition call_host {A : Type} (f : host A) : M A :=
  fun s =>
    let '(o, w) := f (world s) in
    (o, mkState (heap s) (transactionContextStack s) w (trace s)).

(** The computations a caller can write against the library: host calls,
    sequencing, [try]/[catch], and the library's exported functions.  The
    context store is pushed and popped by [transaction] only. *)
Inductive built : forall {A : Type}, M A -> Prop :=
| built_ret {A : Type} (a : A) : built (mret a)
| built_throw {A : Type} (e : value) : built (throw (A:=A) e)
| built_bind {A B : Type} (m : M A) (k : A -> M B) :
    built m -> (forall a, built (k a)) -> built (m ≫= k)
| built_try_catch {A : Type} (m : M A) (h : value -> M A) :
    built m -> (forall e, built (h e)) -> built (try_catch m h)
| built_host {A : Type} (f : host A) : built (call_host f)
| built_current : built getCurrentTransactionContext
| built_atomic action compensation args :
    built (atomic action compensation args)
| built_atomicExplicit action compensation ctx args :
    built (atomicExplicit action compensation ctx args)
| built_transaction fn :
    (forall octx, built (fn_call fn octx)) -> built (transaction fn).

End Engine.

(** ** Sample host functions

    The host functions of the test suite: actions on numbers, and
    compensations that record their call in a [callOrder] array or fail. *)

Module Sample.

(** The host state is the [callOrder] array: tag, result and arguments of
    every recorded call. *)
Definition callOrder : Type := list (string * value * list value).

(** [async (val) => val + n] *)
Definition plus (n : Z) : @action_fn callOrder :=
  fun args w =>
    match args with
    | [VNumber val] => (Resolved (VNumber (val + n)), w)
    | _ => (Rejected (VError "not a number"), w)
    end.

(** [async (val) => val * n] *)
Definition times (n : Z) : @action_fn callOrder :=
  fun args w =>
    match args with
    | [VNumber val] => (Resolved (VNumber (val * n)), w)
    | _ => (Rejected (VError "not a number"), w)
    end.

(** [async (val) => { throw new Error(message) }] *)
Definition failing (message : string) : @action_fn callOrder :=
  fun _ w => (Rejected (VError message), w).

(** [async (result, val) => { callOrder.push(...) }] *)
Definition record (tag : string) : @compensation_fn callOrder :=
  fun result args w => (Resolved tt, w ++ [(tag, result, args)]).

(** [async (result, val) => { throw new Error(message) }] *)
Definition broken (message : string) : @compensation_fn callOrder :=
  fun _ _ w => (Rejected (VError message), w).

(** [async () => 'success'] *)
Definition succeeding_body : @body_fn callOrder :=
  mkBody 0 (fun _ => mret (VString "success")).

(** [async () => { await atomic1(5); return await atomic2(2) }] *)
Definition two_then_return : @body_fn callOrder :=
  mkBody 0 (fun _ =>
    atomic (plus 1) (record "compensation1") [VNumber 5];;
    atomic (times 3) (record "compensation2") [VNumber 2]).

(** [async () => { throw new Error('Failure transaction') }] *)
Definition throwing_body : @body_fn callOrder :=
  mkBody 0 (fun _ => throw (VError "Failure transaction")).

(** [async () => { await atomic1(5); await atomic2(2); throw errorToThrow }]
    with recording compensations. *)
Definition two_then_throw : @body_fn callOrder :=
  mkBody 0 (fun _ =>
    atomic (plus 1) (record "compensation1") [VNumber 5];;
    atomic (times 3) (record "compensation2") [VNumber 2];;
    throw (VError "Transaction error")).

(** [async () => { await atomic1(3); await atomic2(5); throw new Error('Main error') }]
    where both compensations fail. *)
Definition two_broken_then_throw : @body_fn callOrder :=
  mkBody 0 (fun _ =>
    atomic (plus 1) (broken "Compensation failure 1") [VNumber 3];;
    atomic (times 2) (broken "Compensation failure 2") [VNumber 5];;
    throw (VError "Main error")).

(** [async () => { await failingAtomic(4) }] *)
Definition failing_call_body : @body_fn callOrder :=
  mkBody 0 (fun _ => atomic (failing "Action error") (record "never") [VNumber 4]).

(** A program that has not called the library yet, and the state in which
    the body of its first top-level transaction runs. *)
Definition start : @State callOrder := initial [].
Definition inside : @State callOrder := enter start.

(** The two call sites of [two_then_throw]. *)
Definition two_sites : list (@call_site callOrder) :=
  [mkSite false (plus 1) (record "compensation1") [VNumber 5];
   mkSite false (times 3) (record "compensation2") [VNumber 2]].

(** The nested scenario of the test suite: the outer body registers a
    compensation, then an inner transaction registers one and throws. *)
Definition nested_inner_failure : @body_fn callOrder :=
  nesting 0
    (fun _ => atomic (plus 10) (record "outer compensation") [VNumber 5])
    (fun _ _ => mkBody 0 (fun _ =>
       atomic (times 2) (record "inner compensation") [VNumber 3];;
       throw (VError "Inner failure")))
    (fun _ _ y => mret y).

(** [async (ctx) => { const a = await outerAtomic(ctx)(5);
    const b = await transaction(async (innerCtx) => await innerAtomic(innerCtx)(10));
    return a + b }] *)
Definition sum (a b : value) : @M callOrder value :=
  match a, b with
  | VNumber x, VNumber y => mret (VNumber (x + y))
  | _, _ => throw (VError "not a number")
  end.

Definition with_ctx (octx : option ref) (k : ref -> @M callOrder value)
    : @M callOrder value :=
  match octx with
  | Some ctx => k ctx
  | None => throw (VError "ctx is not defined")
  end.

Definition nested_success : @body_fn callOrder :=
  nesting 1
    (fun octx => with_ctx octx (fun ctx =>
       atomicExplicit (plus 1) (record "outer") ctx [VNumber 5]))
    (fun _ _ => mkBody 1 (fun innerCtx => with_ctx innerCtx (fun ctx =>
       atomicExplicit (times 2) (record "inner") ctx [VNumber 10])))
    (fun _ a b => sum a b).

(** [async (ctx) => { const res1 = await autoAtomic(7);
    const res2 = await explicitAtomic(ctx)(4); return res1 + res2 }] *)
Definition mixed_modes : @body_fn callOrder :=
  mkBody 1 (fun octx => with_ctx octx (fun ctx =>
    res1 ← atomic (plus 3) (record "auto") [VNumber 7];
    res2 ← atomicExplicit (times 5) (record "explicit") ctx [VNumber 4];
    sum res1 res2)).

(** [async () => { await charge(100); await schedule(100) }] where the
    second action fails. *)
Definition second_action_fails : @body_fn callOrder :=
  mkBody 0 (fun _ =>
    atomic (plus 0) (record "cancelPayment") [VNumber 100];;
    atomic (failing "Schedule failure") (record "cancelScheduledPayment") [VNumber 100]).

(** [async () => { pushTransactionContext({ compensations: [] }) }]: a
    body that pushes a context of its own onto the store. *)
Definition pushing_body : @body_fn callOrder :=
  mkBody 0 (fun _ =>
    ctx ← new_context;
    pushTransactionContext ctx;;
    mret VUndefined).

(** The state in which the body of a transaction nested in the first one
    runs: two contexts, the inner one current. *)
Definition inside_inner : @State callOrder := enter inside.


End Sample.

(** * Compensations that call the library

    In the definitions above a compensation is a function of the host
    application, so the array [ctx.compensations] cannot change while the
    orchestrator rolls it back.  The source places no such limit: a
    compensation may itself await an atomic function.  The loop of
    [transaction] is a [for]-[of] over the array object itself, reversed
    in place, and the context is popped only after the loop, so a closure
    that such a call pushes lands on the array that is being iterated and
    is run in the same pass.

    This module has the library once more with compensations as scripts
    that may call the atomic functions, and with the loop as the array
    iterator runs it: an index into the array, which is read again at
    every step.  The pass need not end, so the loop takes fuel; [None] is
    a run that is still going when the fuel is used up. *)

Module Reentrant.

Section Engine.

Context {W : Type}.

(** What an asynchronous function of the caller does, step by step:
    [return v], [throw e], [const x = await f(); ...] for a host function,
    and [const x = await atomic(action, compensation)(...args); ...] or the
    explicit form.  A rejected [await] ends the function with that
    rejection. *)
Inductive script : Type :=
| Return (v : value)
| Throw (e : value)
| Await (f : @host W value) (k : value -> script)
| AwaitAtomic (action : @action_fn W)
    (compensation : value -> list value -> script)
    (args : list value) (k : value -> script)
| AwaitAtomicExplicit (action : @action_fn W)
    (compensation : value -> list value -> script)
    (ctx : ref) (args : list value) (k : value -> script).

(** [compensation: (result: R, ...args: A) => Promise<void>] *)
Definition compensation_fn : Type := value -> list value -> script.

(** The closure [() => compensation(result, ...args)]. *)
Record Closure : Type := mkClosure {
  clo_compensation : compensation_fn;
  clo_result : value;
  clo_args : list value
}.

Record TransactionContext : Type := mkContext {
  compensations : list Closure
}.

Inductive event : Type :=
| ActionCall (action : @action_fn W) (args : list value)
| CompensationCall (compensation : compensation_fn) (result : value)
    (args : list value).

Record State : Type := mkState {
  heap : list TransactionContext;
  transactionContextStack : list ref;
  world : W;
  trace : list event
}.

Definition set_heap (h : list TransactionContext) (s : State) : State :=
  mkState h (transactionContextStack s) (world s) (trace s).
Definition set_stack (st : list ref) (s : State) : State :=
  mkState (heap s) st (world s) (trace s).

(** ** Computations that may still be running *)

Definition M (A : Type) : Type := State -> option (outcome A * State).

Definition ret {A : Type} (a : A) : M A := fun s => Some (Resolved a, s).

Definition throw {A : Type} (e : value) : M A := fun s => Some (Rejected e, s).

Definition bind {A B : Type} (m : M A) (k : A -> M B) : M B :=
  fun s =>
    match m s with
    | Some (Resolved a, s') => k a s'
    | Some (Rejected e, s') => Some (Rejected e, s')
    | None => None
    end.

Definition try_catch {A : Type} (m : M A) (h : value -> M A) : M A :=
  fun s =>
    match m s with
    | Some (Resolved a, s') => Some (Resolved a, s')
    | Some (Rejected e, s') => h e s'
    | None => None
    end.

#[global] Instance M_ret : MRet M := @ret.
#[global] Instance M_bind : MBind M := fun A B k m => bind m k.

(** ** context.ts *)

Definition getCurrentTransactionContext : M (option ref) :=
  fun s =>
    let stack := transactionContextStack s in
    Some (Resolved (array_at stack (Z.of_nat (length stack) - 1)), s).

Definition pushTransactionContext (ctx : ref) : M unit :=
  fun s => Some (Resolved tt, set_stack (array_push (transactionContextStack s) ctx) s).

Definition popTransactionContext : M unit :=
  fun s => Some (Resolved tt, set_stack (array_pop (transactionContextStack s)) s).

(** ** Context objects *)

Definition new_context : M ref :=
  fun s => Some (Resolved (length (heap s)), set_heap (heap s ++ [mkContext []]) s).

Definition ctx_compensations (ctx : ref) (s : State) : list Closure :=
  match heap s !! ctx with
  | Some o => compensations o
  | None => []
  end.

Definition compensations_push (ctx : ref) (c : Closure) : M unit :=
  fun s =>
    Some (Resolved tt,
          set_heap (alter (fun o => mkContext (array_push (compensations o) c))
                          ctx (heap s)) s).

(** [ctx.compensations.reverse()]: in place; the value is the array
    object itself, which the loop reads through [ctx]. *)
Definition reverse_in_place (ctx : ref) (s : State) : State :=
  set_heap (alter (fun o => mkContext (array_reverse (compensations o)))
                  ctx (heap s)) s.

Definition compensations_reverse (ctx : ref) : M unit :=
  fun s => Some (Resolved tt, reverse_in_place ctx s).

(** ** Calls into the host application *)

Definition call_host (f : @host W value) : M value :=
  fun s =>
    let '(o, w) := f (world s) in
    Some (o, mkState (heap s) (transactionContextStack s) w (trace s)).

Definition call_action (action : @action_fn W) (args : list value) : M value :=
  fun s =>
    let '(o, w) := action args (world s) in
    Some (o, mkState (heap s) (transactionContextStack s) w
               (trace s ++ [ActionCall action args])).

(** ** atomic.ts *)

Definition atomic (action : @action_fn W) (compensation : compensation_fn)
    (args : list value) : M value :=
  ctx ← getCurrentTransactionContext;
  match ctx with
  | None => throw (VError "Cannot find current transaction context")
  | Some ctx =>
      result ← call_action action args;
      compensations_push ctx (mkClosure compensation result args);;
      mret result
  end.

Definition atomicExplicit (action : @action_fn W) (compensation : compensation_fn)
    (ctx : ref) (args : list value) : M value :=
  result ← call_action action args;
  compensations_push ctx (mkClosure compensation result args);;
  mret result.

(** ** Running a script *)

Fixpoint run_script (p : script) : M value :=
  match p with
  | Return v => mret v
  | Throw e => throw e
  | Await f k => x ← call_host f; run_script (k x)
  | AwaitAtomic action compensation args k =>
      x ← atomic action compensation args; run_script (k x)
  | AwaitAtomicExplicit action compensation ctx args k =>
      x ← atomicExplicit action compensation ctx args; run_script (k x)
  end.

(** [await rollback()] where [rollback] is [() => compensation(result, ...args)] *)
Definition call_closure (rollback : Closure) : M unit :=
  fun s =>
    (run_script (clo_compensation rollback (clo_result rollback) (clo_args rollback));;
     mret tt)
      (mkState (heap s) (transactionContextStack s) (world s)
         (trace s ++ [CompensationCall (clo_compensation rollback)
                        (clo_result rollback) (clo_args rollback)])).

(** ** transaction.ts *)

Record body_fn : Type := mkBody {
  fn_length : nat;
  fn_call : option ref -> M value
}.

(** [for (const rollback of ctx.compensations.reverse()) { try { await
    rollback() } catch (rollbackError) { rollbackErrors.push(rollbackError) } }].
    The array iterator holds the array object and an index; each step
    reads the array as it is at that moment and stops when the index is
    past its end. *)
Definition rollback_step (rollback : Closure) (rollbackErrors : list value)
    : M (list value) :=
  try_catch (call_closure rollback;; mret rollbackErrors)
            (fun rollbackError => mret (array_push rollbackErrors rollbackError)).

Fixpoint rollback_loop (fuel : nat) (ctx : ref) (index : nat)
    (rollbackErrors : list value) : M (list value) :=
  match fuel with
  | 0 => fun _ => None
  | S fuel' =>
      fun s =>
        match ctx_compensations ctx s !! index with
        | None => ret rollbackErrors s
        | Some rollback =>
            bind (rollback_step rollback rollbackErrors)
                 (rollback_loop fuel' ctx (S index)) s
        end
  end.

Definition transaction (fuel : nat) (fn : body_fn) : M value :=
  ctx ← new_context;
  pushTransactionContext ctx;;
  try_catch
    (result ← (if 0 <? fn_length fn
               then fn_call fn (Some ctx)
               else fn_call fn None);
     popTransactionContext;;
     mret result)
    (fun error =>
       compensations_reverse ctx;;
       rollbackErrors ← rollback_loop fuel ctx 0 [];
       popTransactionContext;;
       if 0 <? length rollbackErrors
       then throw (VAggregateError rollbackErrors "One or more rollbacks failed")
       else throw error).

(** ** Reading a run *)

Definition call_body (fn : body_fn) (ctx : ref) : M value :=
  if 0 <? fn_length fn then fn_call fn (Some ctx) else fn_call fn None.

Definition fresh_ctx (s : State) : ref := length (heap s).
Definition enter (s : State) : State :=
  set_stack (array_push (transactionContextStack s) (fresh_ctx s))
    (set_heap (heap s ++ [mkContext []]) s).

Definition current (s : State) : option ref :=
  array_at (transactionContextStack s)
           (Z.of_nat (length (transactionContextStack s)) - 1).

Definition closure_event (c : Closure) : event :=
  CompensationCall (clo_compensation c) (clo_result c) (clo_args c).

Definition initial (w : W) : State := mkState [] [] w [].

(** The compensation calls of a trace, in order. *)
Fixpoint compensation_calls (tr : list event) : list event :=
  match tr with
  | [] => []
  | ActionCall _ _ :: rest => compensation_calls rest
  | CompensationCall c r a :: rest => CompensationCall c r a :: compensation_calls rest
  end.

(** What the caller's functions can do to the machine through the
    library: closures are appended to compensation arrays and actions are
    called; the stack, the number of context objects and the compensation
    calls of the trace stay as they are. *)
Definition extends (s s' : State) : Prop :=
  transactionContextStack s' = transactionContextStack s
  /\ length (heap s') = length (heap s)
  /\ (forall c, exists late, ctx_compensations c s' = ctx_compensations c s ++ late)
  /\ compensation_calls (trace s') = compensation_calls (trace s).

(** What the orchestrator raises after a pass that collected [errs]. *)
Definition rollback_verdict (errs : list value) (error : value) : value :=
  match errs with
  | [] => error
  | _ :: _ => VAggregateError errs "One or more rollbacks failed"
  end.

(** A script that awaits no atomic function. *)
Fixpoint calls_no_atomic (p : script) : Prop :=
  match p with
  | Return _ => True
  | Throw _ => True
  | Await _ k => forall x, calls_no_atomic (k x)
  | AwaitAtomic _ _ _ _ => False
  | AwaitAtomicExplicit _ _ _ _ _ => False
  end.

(** A closure whose call awaits no atomic function. *)
Definition quiet_closure (c : Closure) : Prop :=
  calls_no_atomic (clo_compensation c (clo_result c) (clo_args c)).

(** A closure whose call, wherever it is made, registers nothing on the
    context [ctx]: it leaves the compensation array of [ctx] as it is. *)
Definition leaves_array (ctx : ref) (c : Closure) : Prop :=
  forall s o s',
    call_closure c s = Some (o, s') ->
    ctx_compensations ctx s' = ctx_compensations ctx s.

(** ** Bodies made of atomic calls *)

Record call_site : Type := mkSite {
  site_explicit : bool;
  site_action : @action_fn W;
  site_compensation : compensation_fn;
  site_args : list value
}.

Definition call_site_run (octx : option ref) (c : call_site) : M value :=
  if site_explicit c then
    match octx with
    | Some ctx => atomicExplicit (site_action c) (site_compensation c) ctx (site_args c)
    | None => throw (VError "ctx is not defined")
    end
  else atomic (site_action c) (site_compensation c) (site_args c).

Fixpoint atomic_calls (octx : option ref) (sites : list call_site) : M unit :=
  match sites with
  | [] => mret tt
  | c :: rest => call_site_run octx c;; atomic_calls octx rest
  end.

(** [async (ctx) => { await site_1; ...; await site_N; throw error }] *)
Definition calls_then_throw (params : nat) (sites : list call_site) (error : value)
    : body_fn :=
  mkBody params (fun octx => atomic_calls octx sites;; throw error).

Definition sites_fit (params : nat) (sites : list call_site) : Prop :=
  params = 0 -> Forall (fun c => site_explicit c = false) sites.

Fixpoint actions_resolve (sites : list call_site) (w : W) : option (list value * W) :=
  match sites with
  | [] => Some ([], w)
  | c :: rest =>
      match site_action c (site_args c) w with
      | (Resolved result, w1) =>
          match actions_resolve rest w1 with
          | Some (results, w2) => Some (result :: results, w2)
          | None => None
          end
      | (Rejected _, _) => None
      end
  end.

Fixpoint registered (sites : list call_site) (results : list value) : list Closure :=
  match sites, results with
  | c :: sites', result :: results' =>
      mkClosure (site_compensation c) result (site_args c) :: registered sites' results'
  | _, _ => []
  end.

Definition action_event (c : call_site) : event :=
  ActionCall (site_action c) (site_args c).

(** No compensation of the sites awaits an atomic function. *)
Definition compensations_call_no_atomic (sites : list call_site) : Prop :=
  Forall (fun c => forall result args,
            calls_no_atomic (site_compensation c result args)) sites.

End Engine.

(** ** Sample scripts *)

(** [async (result, val) => { callOrder.push(...) }] *)
Definition record (tag : string) : @compensation_fn Sample.callOrder :=
  fun result args =>
    Await (fun w => (Resolved VUndefined, w ++ [(tag, result, args)]))
          (fun _ => Return VUndefined).

(** [async (result, val) => { await lateAtomic(1) }] where
    [lateAtomic = atomic(async (val) => val + 1, record "late")]: a
    compensation that awaits an implicit atomic function. *)
Definition reentrant : @compensation_fn Sample.callOrder :=
  fun _ _ =>
    AwaitAtomic (Sample.plus 1) (record "late") [VNumber 1]
                (fun _ => Return VUndefined).

(** [async () => { await atomic1(5); await atomic2(2); throw error }] with
    [atomic1 = atomic(plus 1, record "compensation1")] and
    [atomic2 = atomic(times 3, reentrant)]. *)
Definition reentrant_sites : list (@call_site Sample.callOrder) :=
  [mkSite false (Sample.plus 1) (record "compensation1") [VNumber 5];
   mkSite false (Sample.times 3) reentrant [VNumber 2]].

(** The same body with two recording compensations. *)
Definition recording_sites : list (@call_site Sample.callOrder) :=
  [mkSite false (Sample.plus 1) (record "compensation1") [VNumber 5];
   mkSite false (Sample.times 3) (record "compensation2") [VNumber 2]].

(** [async (result, val) => { throw new Error(message) }] *)
Definition broken (message : string) : @compensation_fn Sample.callOrder :=
  fun _ _ => Throw (VError message).

(** The same body with two failing compensations. *)
Definition broken_sites : list (@call_site Sample.callOrder) :=
  [mkSite false (Sample.plus 1) (broken "Compensation failure 1") [VNumber 5];
   mkSite false (Sample.times 3) (broken "Compensation failure 2") [VNumber 2]].

Definition start : @State Sample.callOrder := initial [].

(** The state a run ends in, when it ends. *)
Definition final_state {A : Type} (run : option (outcome A * @State Sample.callOrder))
    : @State Sample.callOrder :=
  match run with
  | Some (_, s) => s
  | None => start
  end.

End Reentrant.

(** * Properties *)

Section EngineFacts.

Context {W : Type}.
Implicit Types (s : @State W) (cs : list (@Closure W)) (fn : @body_fn W).
Implicit Types (sites : list (@call_site W)).

(** Unfolds one layer of sequencing. *)
Ltac step := unfold mbind, M_bind, bind, try_catch.

(** ** Arrays *)

Lemma array_at_last {A : Type} (arr : list A) :
  array_at arr (Z.of_nat (length arr) - 1) = last arr.
Proof.
  unfold array_at. rewrite last_lookup.
  destruct arr as [|x arr]; [reflexivity|].
  cbn [length].
  destruct (Z.ltb_spec (Z.of_nat (S (length arr)) - 1) 0) as [Hneg|_]; [lia|].
  f_equal. lia.
Qed.

Lemma array_pop_push {A : Type} (arr : list A) (x : A) :
  array_pop (array_push arr x) = arr.
Proof. apply removelast_last. Qed.

Lemma current_last s : current s = last (transactionContextStack s).
Proof. apply array_at_last. Qed.

(** ** The rollback loop *)

(** The loop of the orchestrator attempts exactly the closures it is
    given, in order, and collects the failures in that order. *)
Lemma rollback_loop_pass cs : forall (errs : list value) s,
  rollback_loop cs errs s =
    (Resolved (errs ++ failures (rollback_pass cs (world s)).1),
     mkState (heap s) (transactionContextStack s)
             (rollback_pass cs (world s)).2
             (trace s ++ map closure_event cs)).
Proof.
  induction cs as [|c cs IH]; intros errs s.
  - cbn. rewrite !app_nil_r. by destruct s.
  - cbn [rollback_loop rollback_pass map].
    unfold mbind, M_bind, bind, try_catch, call_closure, mret, M_ret, ret.
    unfold invoke.
    destruct (clo_compensation c (clo_result c) (clo_args c) (world s))
      as [[[]|e] w1] eqn:Hc; cbn.
    + rewrite IH. cbn.
      destruct (rollback_pass cs w1) as [os w2]. cbn.
      by rewrite <- app_assoc.
    + rewrite IH. cbn.
      destruct (rollback_pass cs w1) as [os w2]. cbn.
      unfold array_push, closure_event. by rewrite <- !app_assoc.
Qed.

(** ** The orchestrator, path by path *)

Lemma ctx_compensations_reversed ctx s :
  ctx_compensations ctx (set_heap (reverse_in_place ctx (heap s)) s)
  = rev (ctx_compensations ctx s).
Proof.
  unfold ctx_compensations, reverse_in_place, set_heap. cbn.
  rewrite list_lookup_alter_eq.
  by destruct (_ !! _) as [o|].
Qed.

(** Commit: the body resolved. *)
Lemma transaction_commit_run fn s r s1 :
  call_body fn (fresh_ctx s) (enter s) = (Resolved r, s1) ->
  transaction fn s
  = (Resolved r, set_stack (array_pop (transactionContextStack s1)) s1).
Proof.
  intros Hbody. unfold transaction.
  unfold mbind, M_bind, bind, try_catch, new_context, pushTransactionContext.
  unfold call_body, enter, array_push, fresh_ctx in Hbody.
  cbn in Hbody |- *. rewrite Hbody. reflexivity.
Qed.

(** Rollback: the body rejected.  The final state and the raised value
    are those of one rollback pass over the reversed compensation array
    of the transaction's own context. *)
Lemma transaction_rollback_run fn s e s1 :
  call_body fn (fresh_ctx s) (enter s) = (Rejected e, s1) ->
  let cs := rev (ctx_compensations (fresh_ctx s) s1) in
  transaction fn s
  = (Rejected (rollback_verdict (failures (rollback_pass cs (world s1)).1) e),
     mkState (reverse_in_place (fresh_ctx s) (heap s1))
             (array_pop (transactionContextStack s1))
             (rollback_pass cs (world s1)).2
             (trace s1 ++ map closure_event cs)).
Proof.
  intros Hbody cs. unfold transaction.
  unfold mbind, M_bind, bind, try_catch, new_context, pushTransactionContext.
  subst cs. unfold call_body, enter, array_push, fresh_ctx in Hbody |- *.
  cbn in Hbody |- *. rewrite Hbody.
  rewrite ctx_compensations_reversed.
  rewrite rollback_loop_pass. cbn.
  destruct (failures _) as [|e1 errs]; reflexivity.
Qed.

(** ** Success path *)

(** C5: when the body completes without failure, the orchestrator pops
    the context stack once and returns the body's result unchanged; after
    the body nothing more is run: no compensation is called (the trace and
    the host state are those the body left) and the context objects are
    left as they are. *)
Theorem transaction_commit fn s r s1 :
  call_body fn (fresh_ctx s) (enter s) = (Resolved r, s1) ->
  exists s2,
    transaction fn s = (Resolved r, s2)
    /\ transactionContextStack s2 = array_pop (transactionContextStack s1)
    /\ trace s2 = trace s1
    /\ world s2 = world s1
    /\ heap s2 = heap s1.
Proof.
  intros Hbody. eexists. split.
  - by apply transaction_commit_run.
  - done.
Qed.

(** ** Failure paths *)




(** ** The atomic wrappers *)

(** C7: an implicit atomic function called while the context stack is
    empty fails with the context-missing error and leaves the whole state
    as it was: the action is not called (the trace gains no entry and the
    host state is untouched) and nothing is registered. *)
Theorem atomic_without_context (action : @action_fn W)
    (compensation : @compensation_fn W) (args : list value) s :
  transactionContextStack s = [] ->
  atomic action compensation args s
  = (Rejected (VError "Cannot find current transaction context"), s).
Proof.
  intros Hempty. unfold atomic, mbind, M_bind, bind, getCurrentTransactionContext.
  rewrite Hempty. reflexivity.
Qed.

(** C6: when the wrapped action fails, both forms of atomic function fail
    with the action's own error and register nothing: every context has
    the compensation array it had before the call, and the context stack
    is as it was. *)
Theorem atomic_action_failure (action : @action_fn W)
    (compensation : @compensation_fn W) (args : list value) s e w :
  action args (world s) = (Rejected e, w) ->
  (forall ctx, current s = Some ctx ->
     exists s',
       atomic action compensation args s = (Rejected e, s')
       /\ (forall c, ctx_compensations c s' = ctx_compensations c s)
       /\ transactionContextStack s' = transactionContextStack s)
  /\ (forall ctx,
       exists s',
         atomicExplicit action compensation ctx args s = (Rejected e, s')
         /\ (forall c, ctx_compensations c s' = ctx_compensations c s)
         /\ transactionContextStack s' = transactionContextStack s).
Proof.
  intros Haction. split.
  - intros ctx Hctx.
    unfold atomic, mbind, M_bind, bind, getCurrentTransactionContext, call_action.
    unfold current in Hctx. rewrite Hctx, Haction.
    eexists. split; [reflexivity|]. done.
  - intros ctx.
    unfold atomicExplicit, mbind, M_bind, bind, call_action.
    rewrite Haction.
    eexists. split; [reflexivity|]. done.
Qed.

(** ** The context store *)

(** C9, as the code has it: [popTransactionContext] on an empty stack
    completes normally and changes nothing. *)
Theorem pop_empty_is_noop s :
  transactionContextStack s = [] ->
  popTransactionContext s = (Resolved tt, s).
Proof.
  intros Hempty. unfold popTransactionContext, set_stack.
  rewrite Hempty. cbn. destruct s; cbn in *. by subst.
Qed.

(** ** Balance of the context stack *)

(** Whatever the body did, the orchestrator pops exactly once from the
    stack the body left, on its three exit paths. *)
Lemma transaction_pops_once fn s :
  transactionContextStack (transaction fn s).2
  = array_pop (transactionContextStack (call_body fn (fresh_ctx s) (enter s)).2).
Proof.
  destruct (call_body fn (fresh_ctx s) (enter s)) as [[r|e] s1] eqn:Hbody.
  - by rewrite (transaction_commit_run _ _ _ _ Hbody).
  - by rewrite (transaction_rollback_run _ _ _ _ Hbody).
Qed.


(** C8, as the code has it: after a call to [transaction] made while no
    transaction is active, with a body that hands the stack back as it
    received it, no context is current, whichever way the call ended. *)
Theorem transaction_top_level_leaves_no_context fn s :
  transactionContextStack s = [] ->
  transactionContextStack (call_body fn (fresh_ctx s) (enter s)).2
    = array_push (transactionContextStack s) (fresh_ctx s) ->
  (getCurrentTransactionContext (transaction fn s).2).1 = Resolved None.
Proof.
  intros Hempty Hbody.
  unfold getCurrentTransactionContext. cbn.
  rewrite transaction_pops_once, Hbody, array_pop_push, Hempty.
  reflexivity.
Qed.

(** The library's own operations keep the stack balanced, so a body built
    from them hands the stack back as it received it. *)
Lemma balanced_ret {A : Type} (a : A) : balanced (W:=W) (mret a).
Proof. by intros s. Qed.

Lemma balanced_throw {A : Type} (e : value) : balanced (W:=W) (A:=A) (throw e).
Proof. by intros s. Qed.

Lemma balanced_bind {A B : Type} (m : @M W A) (k : A -> @M W B) :
  balanced m -> (forall a, balanced (k a)) -> balanced (m ≫= k).
Proof.
  intros Hm Hk s. step.
  specialize (Hm s). destruct (m s) as [[a|e] s1]; cbn in *.
  - by rewrite Hk.
  - exact Hm.
Qed.

Lemma balanced_try_catch {A : Type} (m : @M W A) (h : value -> @M W A) :
  balanced m -> (forall e, balanced (h e)) -> balanced (try_catch m h).
Proof.
  intros Hm Hh s. unfold try_catch.
  specialize (Hm s). destruct (m s) as [[a|e] s1]; cbn in *.
  - exact Hm.
  - by rewrite Hh.
Qed.

Lemma balanced_getCurrentTransactionContext :
  balanced (W:=W) getCurrentTransactionContext.
Proof. by intros s. Qed.

Lemma balanced_call_action (action : @action_fn W) args :
  balanced (call_action action args).
Proof. intros s. unfold call_action. by destruct (action args (world s)). Qed.

Lemma balanced_compensations_push ctx (c : @Closure W) :
  balanced (compensations_push ctx c).
Proof. by intros s. Qed.

Lemma balanced_atomicExplicit (action : @action_fn W) compensation ctx args :
  balanced (atomicExplicit action compensation ctx args).
Proof.
  unfold atomicExplicit.
  apply balanced_bind; [apply balanced_call_action|]. intros r.
  apply balanced_bind; [apply balanced_compensations_push|]. intros _.
  apply balanced_ret.
Qed.

Lemma balanced_atomic (action : @action_fn W) compensation args :
  balanced (atomic action compensation args).
Proof.
  unfold atomic.
  apply balanced_bind; [apply balanced_getCurrentTransactionContext|].
  intros [ctx|]; [|apply balanced_throw].
  apply balanced_bind; [apply balanced_call_action|]. intros r.
  apply balanced_bind; [apply balanced_compensations_push|]. intros _.
  apply balanced_ret.
Qed.

Lemma balanced_transaction fn :
  (forall octx, balanced (fn_call fn octx)) -> balanced (transaction fn).
Proof.
  intros Hfn s.
  rewrite transaction_pops_once.
  unfold call_body.
  destruct (0 <? fn_length fn); rewrite Hfn; unfold enter; cbn;
    apply array_pop_push.
Qed.

Lemma balanced_call_host {A : Type} (f : @host W A) : balanced (call_host f).
Proof. intros s. unfold call_host. by destruct (f (world s)). Qed.

(** Every computation written against the library hands the stack back as
    it received it. *)
Lemma built_balanced {A : Type} (m : @M W A) : built m -> balanced m.
Proof.
  induction 1 as [A a|A e|A B m k _ IHm _ IHk|A m h _ IHm _ IHh|A f| | | |fn _ IH].
  - apply balanced_ret.
  - apply balanced_throw.
  - by apply balanced_bind.
  - by apply balanced_try_catch.
  - apply balanced_call_host.
  - apply balanced_getCurrentTransactionContext.
  - apply balanced_atomic.
  - apply balanced_atomicExplicit.
  - by apply balanced_transaction.
Qed.

(** ** Context objects are never deallocated *)

Lemma keeps_heap_bind {A B : Type} (m : @M W A) (k : A -> @M W B) :
  keeps_heap m -> (forall a, keeps_heap (k a)) -> keeps_heap (m ≫= k).
Proof.
  intros Hm Hk s. step.
  specialize (Hm s). destruct (m s) as [[a|e] s1]; cbn in *.
  - specialize (Hk a s1). lia.
  - exact Hm.
Qed.

Lemma keeps_heap_try_catch {A : Type} (m : @M W A) (h : value -> @M W A) :
  keeps_heap m -> (forall e, keeps_heap (h e)) -> keeps_heap (try_catch m h).
Proof.
  intros Hm Hh s. unfold try_catch.
  specialize (Hm s). destruct (m s) as [[a|e] s1]; cbn in *.
  - exact Hm.
  - specialize (Hh e s1). lia.
Qed.

Lemma keeps_heap_call_action (action : @action_fn W) args :
  keeps_heap (call_action action args).
Proof. intros s. unfold call_action. by destruct (action args (world s)). Qed.

Lemma keeps_heap_compensations_push ctx (c : @Closure W) :
  keeps_heap (compensations_push ctx c).
Proof. intros s. unfold compensations_push. cbn. by rewrite length_alter. Qed.

Lemma keeps_heap_atomicExplicit (action : @action_fn W) compensation ctx args :
  keeps_heap (atomicExplicit action compensation ctx args).
Proof.
  unfold atomicExplicit.
  apply keeps_heap_bind; [apply keeps_heap_call_action|]. intros r.
  apply keeps_heap_bind; [apply keeps_heap_compensations_push|]. by intros _ s.
Qed.

Lemma keeps_heap_atomic (action : @action_fn W) compensation args :
  keeps_heap (atomic action compensation args).
Proof.
  unfold atomic.
  apply keeps_heap_bind; [by intros s|].
  intros [ctx|]; [|by intros s].
  apply keeps_heap_bind; [apply keeps_heap_call_action|]. intros r.
  apply keeps_heap_bind; [apply keeps_heap_compensations_push|]. by intros _ s.
Qed.

Lemma keeps_heap_transaction fn :
  (forall octx, keeps_heap (fn_call fn octx)) -> keeps_heap (transaction fn).
Proof.
  intros Hfn s.
  assert (Hbody : length (heap (enter s))
                  <= length (heap (call_body fn (fresh_ctx s) (enter s)).2)).
  { unfold call_body. destruct (0 <? fn_length fn); apply Hfn. }
  assert (Henter : length (heap (enter s)) = S (length (heap s))).
  { unfold enter. cbn. rewrite length_app. cbn. lia. }
  destruct (call_body fn (fresh_ctx s) (enter s)) as [[r|e] s1] eqn:Hrun.
  - rewrite (transaction_commit_run _ _ _ _ Hrun). cbn in *. lia.
  - rewrite (transaction_rollback_run _ _ _ _ Hrun). cbn in *.
    unfold reverse_in_place. rewrite length_alter. lia.
Qed.

Lemma built_keeps_heap {A : Type} (m : @M W A) : built m -> keeps_heap m.
Proof.
  induction 1 as [A a|A e|A B m k _ IHm _ IHk|A m h _ IHm _ IHh|A f| | | |fn _ IH].
  - by intros s.
  - by intros s.
  - by apply keeps_heap_bind.
  - by apply keeps_heap_try_catch.
  - intros s. unfold call_host. by destruct (f (world s)).
  - by intros s.
  - apply keeps_heap_atomic.
  - apply keeps_heap_atomicExplicit.
  - by apply keeps_heap_transaction.
Qed.

(** ** Registration *)

Lemma ctx_compensations_pushed ctx (c : @Closure W) s :
  ctx < length (heap s) ->
  ctx_compensations ctx (compensations_push ctx c s).2
  = ctx_compensations ctx s ++ [c].
Proof.
  intros Hlt. unfold ctx_compensations, compensations_push. cbn.
  rewrite list_lookup_alter_eq.
  destruct (lookup_lt_is_Some_2 _ _ Hlt) as [o Ho].
  unfold ref in *. by rewrite Ho.
Qed.

(** A successful call of an explicit atomic function: the action is
    called once, the closure over its result and the arguments is appended
    to the array of the context, and the result is returned. *)
Lemma atomicExplicit_resolved (action : @action_fn W) compensation ctx args s r w :
  ctx < length (heap s) ->
  action args (world s) = (Resolved r, w) ->
  exists s1,
    atomicExplicit action compensation ctx args s = (Resolved r, s1)
    /\ ctx_compensations ctx s1
       = ctx_compensations ctx s ++ [mkClosure compensation r args]
    /\ world s1 = w
    /\ trace s1 = trace s ++ [ActionCall action args]
    /\ transactionContextStack s1 = transactionContextStack s
    /\ length (heap s1) = length (heap s).
Proof.
  intros Hlt Haction.
  unfold atomicExplicit, mbind, M_bind, bind, call_action. rewrite Haction.
  eexists. split; [reflexivity|]. cbn.
  split.
  - set (s' := mkState (heap s) (transactionContextStack s) w
                       (trace s ++ [ActionCall action args])).
    apply (ctx_compensations_pushed ctx _ s'). exact Hlt.
  - repeat split. apply length_alter.
Qed.

(** The same for the implicit form, on the current context. *)
Lemma atomic_resolved (action : @action_fn W) compensation ctx args s r w :
  current s = Some ctx ->
  ctx < length (heap s) ->
  action args (world s) = (Resolved r, w) ->
  exists s1,
    atomic action compensation args s = (Resolved r, s1)
    /\ ctx_compensations ctx s1
       = ctx_compensations ctx s ++ [mkClosure compensation r args]
    /\ world s1 = w
    /\ trace s1 = trace s ++ [ActionCall action args]
    /\ transactionContextStack s1 = transactionContextStack s
    /\ length (heap s1) = length (heap s).
Proof.
  intros Hctx Hlt Haction.
  destruct (atomicExplicit_resolved action compensation ctx args s r w Hlt Haction)
    as (s1 & Hrun & Hrest).
  exists s1. split; [|exact Hrest].
  rewrite <- Hrun.
  unfold atomic, atomicExplicit, mbind, M_bind, bind, getCurrentTransactionContext.
  unfold current in Hctx. by rewrite Hctx.
Qed.

(** N call sites whose actions all resolve: the N closures are appended
    to the context in call order. *)
Lemma atomic_calls_resolved sites : forall octx ctx s results w1,
  current s = Some ctx ->
  ctx < length (heap s) ->
  (forall c, octx = Some c -> c = ctx) ->
  (octx = None -> Forall (fun c => site_explicit c = false) sites) ->
  actions_resolve sites (world s) = Some (results, w1) ->
  exists s1,
    atomic_calls octx sites s = (Resolved tt, s1)
    /\ ctx_compensations ctx s1 = ctx_compensations ctx s ++ registered sites results
    /\ world s1 = w1
    /\ trace s1 = trace s ++ map action_event sites.
Proof.
  induction sites as [|c sites IH]; intros octx ctx s results w1 Hcur Hlt Hsome Hnone Hres.
  - cbn in Hres. injection Hres as <- <-.
    exists s. cbn. by rewrite !app_nil_r.
  - cbn [actions_resolve] in Hres.
    destruct (site_action c (site_args c) (world s)) as [[r|e] w] eqn:Haction; [|done].
    destruct (actions_resolve sites w) as [[rs w2]|] eqn:Hrest; [|done].
    injection Hres as <- <-.
    assert (Hsite : exists s',
      call_site_run octx c s = (Resolved r, s')
      /\ ctx_compensations ctx s'
         = ctx_compensations ctx s
           ++ [mkClosure (site_compensation c) r (site_args c)]
      /\ world s' = w
      /\ trace s' = trace s ++ [ActionCall (site_action c) (site_args c)]
      /\ transactionContextStack s' = transactionContextStack s
      /\ length (heap s') = length (heap s)).
    { unfold call_site_run. destruct (site_explicit c) eqn:Hform.
      - destruct octx as [ctx'|].
        + rewrite (Hsome ctx' eq_refl). by apply atomicExplicit_resolved.
        + specialize (Hnone eq_refl). inversion Hnone; congruence.
      - by apply atomic_resolved. }
    destruct Hsite as (s' & Hrun & Hcs & Hw & Htr & Hst & Hlen).
    destruct (IH octx ctx s' rs w2) as (s1 & Hrun1 & Hcs1 & Hw1 & Htr1).
    + unfold current. by rewrite Hst.
    + by rewrite Hlen.
    + exact Hsome.
    + intros Hn. specialize (Hnone Hn). by inversion Hnone.
    + by rewrite Hw.
    + exists s1. cbn [atomic_calls registered map].
      step. rewrite Hrun.
      split; [exact Hrun1|].
      split; [by rewrite Hcs1, Hcs, <- app_assoc|].
      split; [exact Hw1|].
      by rewrite Htr1, Htr, <- app_assoc.
Qed.

Lemma registered_length sites : forall results w w1,
  actions_resolve sites w = Some (results, w1) ->
  length (registered sites results) = length sites.
Proof.
  induction sites as [|c sites IH]; intros results w w1 Hres; [reflexivity|].
  cbn [actions_resolve] in Hres.
  destruct (site_action c (site_args c) w) as [[r|e] w'] eqn:Haction; [|done].
  destruct (actions_resolve sites w') as [[rs w2]|] eqn:Hrest; [|done].
  injection Hres as <- <-. cbn. f_equal. by eapply IH.
Qed.

Lemma enter_current s : current (enter s) = Some (fresh_ctx s).
Proof. rewrite current_last. unfold enter. cbn. apply last_snoc. Qed.

Lemma enter_fresh_empty s : ctx_compensations (fresh_ctx s) (enter s) = [].
Proof.
  unfold ctx_compensations, enter, fresh_ctx. cbn.
  by rewrite list_lookup_middle.
Qed.

Lemma enter_fresh_allocated s : fresh_ctx s < length (heap (enter s)).
Proof. unfold enter, fresh_ctx. cbn. rewrite length_app. cbn. lia. Qed.

(** ** Rollback order *)

(** ** Nesting *)



End EngineFacts.

(** * Further properties of the three modules *)

Section MoreFacts.

Context {W : Type}.
Implicit Types (s : @State W) (cs : list (@Closure W)) (fn : @body_fn W).
Implicit Types (sites : list (@call_site W)).

(** ** context.ts *)

(** The context store is a stack: the context just pushed is the current
    one, and popping it gives back the state before the push, so the
    context that was current before is current again. *)
Theorem push_current_pop (ctx : ref) s :
  (getCurrentTransactionContext (pushTransactionContext ctx s).2).1
  = Resolved (Some ctx)
  /\ (popTransactionContext (pushTransactionContext ctx s).2).2 = s.
Proof.
  split.
  - unfold getCurrentTransactionContext, pushTransactionContext. cbn.
    rewrite array_at_last. unfold array_push. by rewrite last_snoc.
  - unfold popTransactionContext, pushTransactionContext, set_stack. cbn.
    rewrite array_pop_push. by destruct s.
Qed.

(** [getCurrentTransactionContext] reads the last element of the stack
    and changes nothing; it answers [undefined] exactly when the stack is
    empty. *)
Theorem current_is_top s :
  getCurrentTransactionContext s
  = (Resolved (last (transactionContextStack s)), s)
  /\ ((getCurrentTransactionContext s).1 = Resolved None
      <-> transactionContextStack s = []).
Proof.
  assert (Hrun : getCurrentTransactionContext s
                 = (Resolved (last (transactionContextStack s)), s)).
  { unfold getCurrentTransactionContext. cbn. by rewrite array_at_last. }
  split; [exact Hrun|]. rewrite Hrun. cbn. split.
  - intros Hnone. injection Hnone as Hnone. by apply last_None.
  - intros ->. reflexivity.
Qed.

(** ** atomic.ts *)

(** With a current context, the implicit form is the explicit form applied
    to that context, whatever the action does. *)
Theorem atomic_is_explicit_on_current (action : @action_fn W)
    (compensation : @compensation_fn W) (args : list value) (ctx : ref) s :
  current s = Some ctx ->
  atomic action compensation args s
  = atomicExplicit action compensation ctx args s.
Proof.
  intros Hctx.
  unfold atomic, atomicExplicit, mbind, M_bind, bind, getCurrentTransactionContext.
  unfold current in Hctx. by rewrite Hctx.
Qed.

(** The explicit form neither reads nor writes the context stack: run on
    any other stack it does the same and leaves that stack in place.  In
    particular it needs no active transaction. *)
Theorem atomicExplicit_ignores_stack (action : @action_fn W)
    (compensation : @compensation_fn W) (ctx : ref) (args : list value)
    (st : list ref) s :
  atomicExplicit action compensation ctx args (set_stack st s)
  = ((atomicExplicit action compensation ctx args s).1,
     set_stack st (atomicExplicit action compensation ctx args s).2).
Proof.
  unfold atomicExplicit, mbind, M_bind, bind, call_action. cbn.
  by destruct (action args (world s)) as [[r|e] w].
Qed.

Lemma atomicExplicit_resolved_run (action : @action_fn W) compensation ctx args s r w :
  action args (world s) = (Resolved r, w) ->
  atomicExplicit action compensation ctx args s
  = (Resolved r,
     mkState (alter (fun o => mkContext (array_push (compensations o)
                                (mkClosure compensation r args))) ctx (heap s))
             (transactionContextStack s) w
             (trace s ++ [ActionCall action args])).
Proof.
  intros Haction.
  unfold atomicExplicit, mbind, M_bind, bind, call_action. by rewrite Haction.
Qed.

Lemma pushed_here ctx (c : @Closure W) st w tr s :
  ctx < length (heap s) ->
  ctx_compensations ctx
    (mkState (alter (fun o => mkContext (array_push (compensations o) c)) ctx (heap s))
             st w tr)
  = ctx_compensations ctx s ++ [c].
Proof.
  intros Hlt. unfold ctx_compensations. cbn.
  rewrite list_lookup_alter_eq.
  destruct (lookup_lt_is_Some_2 _ _ Hlt) as [o Ho].
  unfold ref in *. by rewrite Ho.
Qed.

Lemma pushed_elsewhere ctx ctx' (c : @Closure W) st w tr s :
  ctx <> ctx' ->
  ctx_compensations ctx'
    (mkState (alter (fun o => mkContext (array_push (compensations o) c)) ctx (heap s))
             st w tr)
  = ctx_compensations ctx' s.
Proof.
  intros Hne. unfold ctx_compensations. cbn. by rewrite list_lookup_alter_ne.
Qed.

(** A successful explicit call registers on the context it was given,
    current or not: that context's array gains one closure at its end,
    holding the compensation, the action's result and the arguments; every
    other context keeps its array; the action is called once and no
    compensation is. *)
Theorem atomicExplicit_registers_on_given (action : @action_fn W)
    (compensation : @compensation_fn W) (ctx : ref) (args : list value) s r w :
  ctx < length (heap s) ->
  action args (world s) = (Resolved r, w) ->
  exists s1,
    atomicExplicit action compensation ctx args s = (Resolved r, s1)
    /\ ctx_compensations ctx s1
       = ctx_compensations ctx s ++ [mkClosure compensation r args]
    /\ (forall c, c <> ctx -> ctx_compensations c s1 = ctx_compensations c s)
    /\ world s1 = w
    /\ trace s1 = trace s ++ [ActionCall action args]
    /\ transactionContextStack s1 = transactionContextStack s.
Proof.
  intros Hlt Haction.
  rewrite (atomicExplicit_resolved_run _ compensation ctx _ _ _ _ Haction).
  eexists. split; [reflexivity|].
  split; [by apply pushed_here|].
  split; [|done].
  intros c Hne. by apply pushed_elsewhere.
Qed.

(** A successful implicit call registers on the current context and on no
    other: inside a nested transaction the enclosing contexts keep their
    arrays. *)
Theorem atomic_registers_on_current (action : @action_fn W)
    (compensation : @compensation_fn W) (args : list value) (ctx : ref) s r w :
  current s = Some ctx ->
  ctx < length (heap s) ->
  action args (world s) = (Resolved r, w) ->
  exists s1,
    atomic action compensation args s = (Resolved r, s1)
    /\ ctx_compensations ctx s1
       = ctx_compensations ctx s ++ [mkClosure compensation r args]
    /\ (forall c, c <> ctx -> ctx_compensations c s1 = ctx_compensations c s)
    /\ world s1 = w
    /\ trace s1 = trace s ++ [ActionCall action args]
    /\ current s1 = Some ctx.
Proof.
  intros Hctx Hlt Haction.
  assert (Hrun : atomic action compensation args s
                 = atomicExplicit action compensation ctx args s).
  { unfold atomic, atomicExplicit, mbind, M_bind, bind, getCurrentTransactionContext.
    unfold current in Hctx. by rewrite Hctx. }
  rewrite Hrun, (atomicExplicit_resolved_run _ compensation ctx _ _ _ _ Haction).
  eexists. split; [reflexivity|].
  split; [by apply pushed_here|].
  split; [intros c Hne; by apply pushed_elsewhere|].
  repeat split. exact Hctx.
Qed.

(** ** transaction.ts *)

(** The outcome of [transaction] depends on the body only through the run
    of the body in the entered state. *)
Lemma transaction_outcome fn s :
  transaction fn s
  = match call_body fn (fresh_ctx s) (enter s) with
    | (Resolved r, s1) =>
        (Resolved r, set_stack (array_pop (transactionContextStack s1)) s1)
    | (Rejected e, s1) =>
        let cs := rev (ctx_compensations (fresh_ctx s) s1) in
        (Rejected (rollback_verdict (failures (rollback_pass cs (world s1)).1) e),
         mkState (reverse_in_place (fresh_ctx s) (heap s1))
                 (array_pop (transactionContextStack s1))
                 (rollback_pass cs (world s1)).2
                 (trace s1 ++ map closure_event cs))
    end.
Proof.
  destruct (call_body fn (fresh_ctx s) (enter s)) as [[r|e] s1] eqn:Hbody.
  - by apply transaction_commit_run.
  - by apply transaction_rollback_run.
Qed.

(** [transaction] resolves exactly when its body resolves, and with the
    body's value: a failed body is never turned into a result, whatever the
    rollback does. *)
Theorem transaction_resolves_iff_body_resolves fn s (r : value) :
  (transaction fn s).1 = Resolved r
  <-> (call_body fn (fresh_ctx s) (enter s)).1 = Resolved r.
Proof.
  rewrite transaction_outcome.
  by destruct (call_body fn (fresh_ctx s) (enter s)) as [[r'|e] s1].
Qed.

Lemma failures_length (os : list (outcome unit)) : length (failures os) <= length os.
Proof.
  induction os as [|[u|e] os IH]; cbn; lia.
Qed.

Lemma rollback_pass_length cs : forall (w : W),
  length (rollback_pass cs w).1 = length cs.
Proof.
  induction cs as [|c cs IH]; intros w; [reflexivity|].
  cbn. destruct (invoke c w) as [o w1]. specialize (IH w1).
  destruct (rollback_pass cs w1) as [os w2]. cbn in *. by rewrite IH.
Qed.

(** A body written against the library leaves no trace on the context
    store, and the context object of the call is a new one: the heap has
    grown, so no later transaction gets the same context. *)
Theorem library_body_transaction fn s :
  (forall octx, built (fn_call fn octx)) ->
  transactionContextStack (transaction fn s).2 = transactionContextStack s
  /\ length (heap s) < length (heap (transaction fn s).2).
Proof.
  intros Hfn. split.
  - apply balanced_transaction. intros octx. by apply built_balanced.
  - assert (Hbody : length (heap (enter s))
                    <= length (heap (call_body fn (fresh_ctx s) (enter s)).2)).
    { unfold call_body. destruct (0 <? fn_length fn); by apply built_keeps_heap. }
    assert (Henter : length (heap (enter s)) = S (length (heap s))).
    { unfold enter. cbn. rewrite length_app. cbn. lia. }
    rewrite transaction_outcome.
    destruct (call_body fn (fresh_ctx s) (enter s)) as [[r|e] s1]; cbn in *.
    + lia.
    + unfold reverse_in_place. rewrite length_alter. lia.
Qed.

(** ** Bodies of atomic calls *)

(** One call site whose action resolves, run where [ctx] is current. *)
Lemma call_site_resolved octx ctx (c : @call_site W) s r w :
  current s = Some ctx ->
  ctx < length (heap s) ->
  (forall c', octx = Some c' -> c' = ctx) ->
  (octx = None -> site_explicit c = false) ->
  site_action c (site_args c) (world s) = (Resolved r, w) ->
  exists s1,
    call_site_run octx c s = (Resolved r, s1)
    /\ ctx_compensations ctx s1
       = ctx_compensations ctx s ++ [mkClosure (site_compensation c) r (site_args c)]
    /\ (forall c', c' <> ctx -> ctx_compensations c' s1 = ctx_compensations c' s)
    /\ world s1 = w
    /\ trace s1 = trace s ++ [action_event c]
    /\ transactionContextStack s1 = transactionContextStack s
    /\ length (heap s1) = length (heap s).
Proof.
  intros Hcur Hlt Hsome Hnone Haction.
  assert (Hrun : call_site_run octx c s
                 = atomicExplicit (site_action c) (site_compensation c) ctx
                                  (site_args c) s).
  { unfold call_site_run. destruct (site_explicit c) eqn:Hform.
    - destruct octx as [c'|]; [by rewrite (Hsome c' eq_refl)|].
      specialize (Hnone eq_refl). congruence.
    - unfold atomic, atomicExplicit, mbind, M_bind, bind,
        getCurrentTransactionContext.
      unfold current in Hcur. by rewrite Hcur. }
  rewrite Hrun, (atomicExplicit_resolved_run _ _ ctx _ _ _ _ Haction).
  eexists. split; [reflexivity|].
  split; [by apply pushed_here|].
  split; [intros c' Hne; by apply pushed_elsewhere|].
  cbn. repeat split. apply length_alter.
Qed.


(** N call sites whose actions all resolve, with what they leave alone. *)
Lemma atomic_calls_frame sites : forall octx ctx s results w1,
  current s = Some ctx ->
  ctx < length (heap s) ->
  (forall c, octx = Some c -> c = ctx) ->
  (octx = None -> Forall (fun c => site_explicit c = false) sites) ->
  actions_resolve sites (world s) = Some (results, w1) ->
  exists s1,
    atomic_calls octx sites s = (Resolved tt, s1)
    /\ ctx_compensations ctx s1 = ctx_compensations ctx s ++ registered sites results
    /\ (forall c, c <> ctx -> ctx_compensations c s1 = ctx_compensations c s)
    /\ world s1 = w1
    /\ trace s1 = trace s ++ map action_event sites
    /\ transactionContextStack s1 = transactionContextStack s
    /\ length (heap s1) = length (heap s).
Proof.
  induction sites as [|c sites IH]; intros octx ctx s results w1 Hcur Hlt Hsome Hnone Hres.
  - cbn in Hres. injection Hres as <- <-.
    exists s. cbn. by rewrite !app_nil_r.
  - cbn [actions_resolve] in Hres.
    destruct (site_action c (site_args c) (world s)) as [[r|e] w] eqn:Haction; [|done].
    destruct (actions_resolve sites w) as [[rs w2]|] eqn:Hrest; [|done].
    injection Hres as <- <-.
    destruct (call_site_resolved octx ctx c s r w Hcur Hlt Hsome)
      as (s' & Hrun & Hcs & Hfr & Hw & Htr & Hst & Hlen); [|exact Haction|].
    { intros Hn. specialize (Hnone Hn). by inversion Hnone. }
    destruct (IH octx ctx s' rs w2) as (s1 & Hrun1 & Hcs1 & Hfr1 & Hw1 & Htr1 & Hst1 & Hlen1).
    + unfold current. by rewrite Hst.
    + by rewrite Hlen.
    + exact Hsome.
    + intros Hn. specialize (Hnone Hn). by inversion Hnone.
    + by rewrite Hw.
    + exists s1. cbn [atomic_calls registered map].
      unfold mbind, M_bind, bind. rewrite Hrun.
      split; [exact Hrun1|].
      split; [by rewrite Hcs1, Hcs, <- app_assoc|].
      split; [intros c' Hne; by rewrite Hfr1, Hfr|].
      split; [exact Hw1|].
      split; [by rewrite Htr1, Htr, <- app_assoc|].
      split; [by rewrite Hst1|by rewrite Hlen1].
Qed.

Lemma body_argument_fresh params s c :
  body_argument params s = Some c -> c = fresh_ctx s.
Proof. unfold body_argument. destruct (0 <? params); congruence. Qed.

Lemma body_argument_none params s sites :
  sites_fit params sites ->
  body_argument params s = None ->
  Forall (fun c => site_explicit c = false) sites.
Proof.
  unfold body_argument, sites_fit. destruct params; [auto|done].
Qed.

Lemma call_body_argument params (k : option ref -> @M W value) s :
  call_body (mkBody params k) (fresh_ctx s) = k (body_argument params s).
Proof.
  unfold call_body, body_argument. cbn [fn_length fn_call].
  by destruct (0 <? params).
Qed.

Lemma enter_other s c :
  c <> fresh_ctx s -> ctx_compensations c (enter s) = ctx_compensations c s.
Proof.
  intros Hne. unfold ctx_compensations, enter, fresh_ctx in *. cbn.
  destruct (decide (c < length (heap s))) as [Hlt|Hge].
  - by rewrite lookup_app_l.
  - rewrite !lookup_ge_None_2; [done|lia|rewrite length_app; cbn; lia].
Qed.

Lemma enter_stack s :
  transactionContextStack (enter s)
  = array_push (transactionContextStack s) (fresh_ctx s).
Proof. reflexivity. Qed.

(** A body of N successful atomic calls that returns: the transaction
    resolves with the returned value, each action was called once, in
    order, no compensation was called, the N closures sit in the
    transaction's context in call order, and no other context was
    written to. *)
Theorem committed_calls_only_register params sites (v : value) s results w1 :
  sites_fit params sites ->
  actions_resolve sites (world s) = Some (results, w1) ->
  exists s2,
    transaction (calls_then_return params sites v) s = (Resolved v, s2)
    /\ trace s2 = trace s ++ map action_event sites
    /\ ctx_compensations (fresh_ctx s) s2 = registered sites results
    /\ (forall c, c <> fresh_ctx s -> ctx_compensations c s2 = ctx_compensations c s)
    /\ world s2 = w1
    /\ transactionContextStack s2 = transactionContextStack s.
Proof.
  intros Hfit Hres.
  destruct (atomic_calls_frame sites (body_argument params s) (fresh_ctx s)
              (enter s) results w1)
    as (s1 & Hrun & Hcs & Hfr & Hw & Htr & Hst & Hlen).
  - apply enter_current.
  - apply enter_fresh_allocated.
  - apply body_argument_fresh.
  - by apply body_argument_none.
  - exact Hres.
  - rewrite enter_fresh_empty in Hcs. cbn in Hcs.
    rewrite transaction_outcome. unfold calls_then_return.
    rewrite call_body_argument. unfold mbind, M_bind, bind. rewrite Hrun. cbn.
    eexists. split; [reflexivity|].
    split; [exact Htr|]. split; [exact Hcs|].
    split.
    { intros c Hne. transitivity (ctx_compensations c s1); [reflexivity|].
      by rewrite Hfr, enter_other. }
    split; [exact Hw|].
    cbn. by rewrite Hst, enter_stack, array_pop_push.
Qed.



(** Inside a body that receives its context, the two forms of atomic
    function are interchangeable: writing every call site in the implicit
    or in the explicit form gives the same run. *)
Theorem forms_interchangeable (n : nat) sites (error : value) (b : bool) s :
  transaction (calls_then_throw (S n) (map (as_form b) sites) error) s
  = transaction (calls_then_throw (S n) sites error) s.
Proof.
  assert (Hcalls : forall sites ctx s',
            current s' = Some ctx ->
            atomic_calls (Some ctx) (map (as_form b) sites) s'
            = atomic_calls (Some ctx) sites s').
  { clear sites s. induction sites as [|c sites IH]; intros ctx s' Hcur; [reflexivity|].
    assert (Hsite : forall c' : @call_site W,
              call_site_run (Some ctx) c' s'
              = atomicExplicit (site_action c') (site_compensation c') ctx
                               (site_args c') s').
    { intros c'. unfold call_site_run. destruct (site_explicit c'); [reflexivity|].
      unfold atomic, atomicExplicit, mbind, M_bind, bind,
        getCurrentTransactionContext.
      unfold current in Hcur. by rewrite Hcur. }
    cbn [map atomic_calls]. unfold mbind, M_bind, bind.
    rewrite (Hsite (as_form b c)), (Hsite c). cbn [as_form site_action
      site_compensation site_args].
    pose proof (balanced_atomicExplicit (site_action c) (site_compensation c)
                  ctx (site_args c) s') as Hbal.
    destruct (atomicExplicit _ _ _ _ s') as [[r|e] s1]; [|reflexivity].
    apply IH. unfold current. cbn in Hbal. by rewrite Hbal. }
  rewrite !transaction_outcome. unfold calls_then_throw.
  rewrite !call_body_argument. unfold body_argument. cbn.
  unfold mbind, M_bind, bind.
  by rewrite (Hcalls sites (fresh_ctx s) (enter s) (enter_current s)).
Qed.


End MoreFacts.

(** * The scenarios of the test suite *)

Section Runs.

Import Sample.

(** Reverse-order rollback: [action1(5)] gives 6 and registers
    [compensation1], [action2(2)] gives 6 and registers [compensation2],
    the body throws; [compensation2] runs first. *)
Example two_then_throw_run :
  (transaction two_then_throw start).1 = Rejected (VError "Transaction error")
  /\ world (transaction two_then_throw start).2
     = [("compensation2", VNumber 6, [VNumber 2]);
        ("compensation1", VNumber 6, [VNumber 5])].
Proof. split; reflexivity. Qed.

(** Two failing compensations: the aggregate has two entries, the failure
    of the most recently registered compensation first. *)
Example two_broken_then_throw_run :
  (transaction two_broken_then_throw start).1
  = Rejected (VAggregateError
                [VError "Compensation failure 2"; VError "Compensation failure 1"]
                "One or more rollbacks failed").
Proof. reflexivity. Qed.

(** Inner failure: the inner compensation is called before the outer one
    and the inner error reaches the caller. *)
Example nested_inner_failure_run :
  (transaction nested_inner_failure start).1 = Rejected (VError "Inner failure")
  /\ world (transaction nested_inner_failure start).2
     = [("inner compensation", VNumber 6, [VNumber 3]);
        ("outer compensation", VNumber 15, [VNumber 5])].
Proof. split; reflexivity. Qed.

(** Nested transactions that both commit: [(5+1) + (10*2)] is 26 and no
    compensation is called. *)
Example nested_success_run :
  (transaction nested_success start).1 = Resolved (VNumber 26)
  /\ world (transaction nested_success start).2 = []
  /\ transactionContextStack (transaction nested_success start).2 = [].
Proof. repeat split; reflexivity. Qed.

(** Implicit and explicit atomic functions in one body register on the
    same context. *)
Example mixed_modes_run :
  (transaction mixed_modes start).1 = Resolved (VNumber 30)
  /\ ctx_compensations 0 (transaction mixed_modes start).2
     = [mkClosure (record "auto") (VNumber 10) [VNumber 7];
        mkClosure (record "explicit") (VNumber 20) [VNumber 4]].
Proof. split; reflexivity. Qed.

(** A failing action: its error reaches the caller, the compensation of
    the earlier action is called, its own is not. *)
Example second_action_fails_run :
  (transaction second_action_fails start).1 = Rejected (VError "Schedule failure")
  /\ world (transaction second_action_fails start).2
     = [("cancelPayment", VNumber 100, [VNumber 100])].
Proof. split; reflexivity. Qed.

(** A call without transaction, then the cleanup check of the test suite:
    no context is current after a committed and after a failed top-level
    transaction. *)
Example cleanup_run :
  (getCurrentTransactionContext (transaction succeeding_body start).2).1
  = Resolved None
  /\ (getCurrentTransactionContext (transaction throwing_body start).2).1
     = Resolved None.
Proof. split; reflexivity. Qed.

(** The sample bodies are written against the library. *)
Example nested_inner_failure_built :
  forall octx, built (fn_call nested_inner_failure octx).
Proof.
  intros octx. cbn.
  apply built_bind; [apply built_atomic|]. intros x.
  apply built_bind; [|intros y; apply built_ret].
  apply built_transaction. intros ictx. cbn.
  apply built_bind; [apply built_atomic|]. intros _. apply built_throw.
Qed.

(** ** The properties at these scenarios *)




Lemma transaction_commit_witness :
  exists s2,
    transaction two_then_return start = (Resolved (VNumber 6), s2)
    /\ transactionContextStack s2 = array_pop [0]
    /\ trace s2 = [ActionCall (plus 1) [VNumber 5]; ActionCall (times 3) [VNumber 2]]
    /\ world s2 = []
    /\ heap s2
       = [mkContext [mkClosure (record "compensation1") (VNumber 6) [VNumber 5];
                     mkClosure (record "compensation2") (VNumber 6) [VNumber 2]]].
Proof.
  exact (transaction_commit two_then_return start (VNumber 6)
           (call_body two_then_return (fresh_ctx start) (enter start)).2 eq_refl).
Defined.

Lemma atomic_action_failure_witness :
  (forall ctx, current inside = Some ctx ->
     exists s',
       atomic (failing "Action error") (record "never") [VNumber 4] inside
       = (Rejected (VError "Action error"), s')
       /\ (forall c, ctx_compensations c s' = ctx_compensations c inside)
       /\ transactionContextStack s' = transactionContextStack inside)
  /\ (forall ctx,
       exists s',
         atomicExplicit (failing "Action error") (record "never") ctx [VNumber 4] inside
         = (Rejected (VError "Action error"), s')
         /\ (forall c, ctx_compensations c s' = ctx_compensations c inside)
         /\ transactionContextStack s' = transactionContextStack inside).
Proof.
  exact (atomic_action_failure (failing "Action error") (record "never")
           [VNumber 4] inside (VError "Action error") [] eq_refl).
Defined.

Lemma atomic_without_context_witness :
  atomic (times 2) (record "never") [VNumber 5] start
  = (Rejected (VError "Cannot find current transaction context"), start).
Proof.
  exact (atomic_without_context (times 2) (record "never") [VNumber 5] start eq_refl).
Defined.

(** Two calls after which a context is current.  A transaction called
    inside the body of another one leaves the enclosing context current.
    A transaction called with an empty stack whose body pushes a context
    of its own leaves a context behind: the orchestrator pops once, and
    that removes the body's context, not its own. *)
Lemma context_current_after_transaction :
  ((getCurrentTransactionContext (transaction succeeding_body inside).2).1
   = Resolved (Some 0)
   /\ (getCurrentTransactionContext (transaction succeeding_body inside).2).1
      <> Resolved None)
  /\ (transactionContextStack start = []
      /\ (getCurrentTransactionContext (transaction pushing_body start).2).1
         = Resolved (Some 0)
      /\ (getCurrentTransactionContext (transaction pushing_body start).2).1
         <> Resolved None).
Proof. repeat split; discriminate. Qed.

Lemma transaction_top_level_leaves_no_context_witness :
  (getCurrentTransactionContext (transaction two_broken_then_throw start).2).1
  = Resolved None.
Proof.
  exact (transaction_top_level_leaves_no_context two_broken_then_throw start
           eq_refl eq_refl).
Defined.

(** Popping the empty stack completes and changes nothing. *)
Lemma pop_on_empty_stack_completes :
  popTransactionContext start = (Resolved tt, start).
Proof. reflexivity. Qed.

Lemma pop_empty_is_noop_witness :
  popTransactionContext start = (Resolved tt, start).
Proof. exact (pop_empty_is_noop start eq_refl). Defined.


(** ** The further properties at these scenarios *)

Lemma atomic_is_explicit_on_current_witness :
  atomic (plus 1) (record "compensation1") [VNumber 5] inside_inner
  = atomicExplicit (plus 1) (record "compensation1") 1 [VNumber 5] inside_inner.
Proof.
  exact (atomic_is_explicit_on_current (plus 1) (record "compensation1")
           [VNumber 5] 1 inside_inner eq_refl).
Defined.

Lemma atomicExplicit_registers_on_given_witness :
  exists s1,
    atomicExplicit (plus 1) (record "compensation1") 0 [VNumber 5] inside_inner
    = (Resolved (VNumber 6), s1)
    /\ ctx_compensations 0 s1
       = [] ++ [mkClosure (record "compensation1") (VNumber 6) [VNumber 5]]
    /\ (forall c, c <> 0 -> ctx_compensations c s1 = ctx_compensations c inside_inner)
    /\ world s1 = []
    /\ trace s1 = [] ++ [ActionCall (plus 1) [VNumber 5]]
    /\ transactionContextStack s1 = [0; 1].
Proof.
  refine (atomicExplicit_registers_on_given (plus 1) (record "compensation1") 0
            [VNumber 5] inside_inner (VNumber 6) [] _ eq_refl).
  cbn. lia.
Defined.

Lemma atomic_registers_on_current_witness :
  exists s1,
    atomic (plus 1) (record "compensation1") [VNumber 5] inside_inner
    = (Resolved (VNumber 6), s1)
    /\ ctx_compensations 1 s1
       = [] ++ [mkClosure (record "compensation1") (VNumber 6) [VNumber 5]]
    /\ (forall c, c <> 1 -> ctx_compensations c s1 = ctx_compensations c inside_inner)
    /\ world s1 = []
    /\ trace s1 = [] ++ [ActionCall (plus 1) [VNumber 5]]
    /\ current s1 = Some 1.
Proof.
  refine (atomic_registers_on_current (plus 1) (record "compensation1")
            [VNumber 5] 1 inside_inner (VNumber 6) [] eq_refl _ eq_refl).
  cbn. lia.
Defined.

Lemma library_body_transaction_witness :
  transactionContextStack (transaction nested_inner_failure inside).2 = [0]
  /\ 1 < length (heap (transaction nested_inner_failure inside).2).
Proof.
  refine (library_body_transaction nested_inner_failure inside _).
  intros octx. cbn.
  apply built_bind; [apply built_atomic|]. intros x.
  apply built_bind; [|intros y; apply built_ret].
  apply built_transaction. intros ictx. cbn.
  apply built_bind; [apply built_atomic|]. intros _. apply built_throw.
Defined.

Lemma committed_calls_only_register_witness :
  exists s2,
    transaction (calls_then_return 0 two_sites (VString "done")) inside
    = (Resolved (VString "done"), s2)
    /\ trace s2 = [] ++ [ActionCall (plus 1) [VNumber 5];
                         ActionCall (times 3) [VNumber 2]]
    /\ ctx_compensations 1 s2
       = [mkClosure (record "compensation1") (VNumber 6) [VNumber 5];
          mkClosure (record "compensation2") (VNumber 6) [VNumber 2]]
    /\ (forall c, c <> 1 -> ctx_compensations c s2 = ctx_compensations c inside)
    /\ world s2 = []
    /\ transactionContextStack s2 = [0].
Proof.
  refine (committed_calls_only_register 0 two_sites (VString "done") inside
            [VNumber 6; VNumber 6] [] _ eq_refl).
  intros _. repeat constructor.
Defined.




End Runs.

(** * Compensations that call the library: properties *)

Section ReentrantFacts.

Import Reentrant.

Context {W : Type}.
Implicit Types (s : @State W) (p : @script W) (fn : @body_fn W).
Implicit Types (sites : list (@call_site W)) (tr : list (@event W)).

Ltac rstep := unfold mbind, Reentrant.M_bind, Reentrant.bind, Reentrant.try_catch.

Lemma compensation_calls_app tr1 tr2 :
  compensation_calls (tr1 ++ tr2) = compensation_calls tr1 ++ compensation_calls tr2.
Proof.
  induction tr1 as [|[a args|comp r args] tr1 IH]; cbn; [done|done|by rewrite IH].
Qed.

Lemma compensation_calls_closures (cs : list (@Closure W)) :
  compensation_calls (map closure_event cs) = map closure_event cs.
Proof. induction cs as [|c cs IH]; cbn; [done|by rewrite IH]. Qed.

Lemma extends_refl s : extends s s.
Proof.
  repeat split. intros c. exists []. by rewrite app_nil_r.
Qed.

Lemma extends_trans s1 s2 s3 : extends s1 s2 -> extends s2 s3 -> extends s1 s3.
Proof.
  intros (Hst1 & Hlen1 & Harr1 & Hcc1) (Hst2 & Hlen2 & Harr2 & Hcc2).
  split; [congruence|]. split; [congruence|]. split; [|congruence].
  intros c. destruct (Harr1 c) as [l1 H1]. destruct (Harr2 c) as [l2 H2].
  exists (l1 ++ l2). by rewrite H2, H1, <- app_assoc.
Qed.

(** Pushing a closure appends to one array and changes no other. *)
Lemma push_appends (ctx c' : ref) (cl : @Closure W) h st w tr :
  exists late,
    ctx_compensations c'
      (mkState (alter (fun o => mkContext (array_push (compensations o) cl)) ctx h)
               st w tr)
    = ctx_compensations c' (mkState h st w tr) ++ late.
Proof.
  unfold ctx_compensations, ref in *. cbn.
  destruct (decide (ctx = c')) as [->|Hne].
  - rewrite list_lookup_alter_eq.
    destruct (h !! c') as [o|]; cbn.
    + by exists [cl].
    + by exists [].
  - rewrite list_lookup_alter_ne by done. exists []. by rewrite app_nil_r.
Qed.

Lemma atomicExplicit_extends (action : @action_fn W) compensation ctx args s :
  exists o s', atomicExplicit action compensation ctx args s = Some (o, s')
               /\ extends s s'.
Proof.
  unfold atomicExplicit, call_action, compensations_push. rstep.
  destruct (action args (world s)) as [[r|e] w]; cbn.
  - eexists _, _. split; [reflexivity|].
    split; [done|]. split; [cbn; apply length_alter|]. split.
    + intros c'.
      destruct (push_appends ctx c' (mkClosure compensation r args) (heap s)
                  (transactionContextStack s) w (trace s ++ [ActionCall action args]))
        as [late Hlate].
      exists late. exact Hlate.
    + cbn. rewrite compensation_calls_app. cbn. by rewrite app_nil_r.
  - eexists _, _. split; [reflexivity|].
    split; [done|]. split; [done|]. split.
    + intros c'. exists []. by rewrite app_nil_r.
    + cbn. rewrite compensation_calls_app. cbn. by rewrite app_nil_r.
Qed.

Lemma atomic_extends (action : @action_fn W) compensation args s :
  exists o s', atomic action compensation args s = Some (o, s') /\ extends s s'.
Proof.
  unfold atomic, getCurrentTransactionContext. rstep.
  destruct (array_at _ _) as [ctx|].
  - apply (atomicExplicit_extends action compensation ctx args s).
  - eexists _, _. split; [reflexivity|]. apply extends_refl.
Qed.

(** A script always settles, and extends the machine. *)
Lemma run_script_extends p : forall s,
  exists o s', run_script p s = Some (o, s') /\ extends s s'.
Proof.
  induction p as [v|e|f k IH|action compensation _ args k IH
                 |action compensation _ ctx args k IH]; intros s; cbn [run_script].
  - eexists _, _. split; [reflexivity|]. apply extends_refl.
  - eexists _, _. split; [reflexivity|]. apply extends_refl.
  - rstep. unfold call_host. destruct (f (world s)) as [[x|e] w].
    + destruct (IH x (mkState (heap s) (transactionContextStack s) w (trace s)))
        as (o & s' & Hrun & Hext).
      exists o, s'. split; [exact Hrun|].
      refine (extends_trans _ _ _ _ Hext).
      repeat split. intros c. exists []. by rewrite app_nil_r.
    + eexists _, _. split; [reflexivity|].
      repeat split. intros c. exists []. by rewrite app_nil_r.
  - rstep.
    destruct (atomic_extends action compensation args s) as (o & s1 & Hrun & Hext).
    rewrite Hrun. destruct o as [x|e].
    + destruct (IH x s1) as (o & s' & Hrun' & Hext').
      exists o, s'. split; [exact Hrun'|]. by eapply extends_trans.
    + by eexists _, _.
  - rstep.
    destruct (atomicExplicit_extends action compensation ctx args s)
      as (o & s1 & Hrun & Hext).
    rewrite Hrun. destruct o as [x|e].
    + destruct (IH x s1) as (o & s' & Hrun' & Hext').
      exists o, s'. split; [exact Hrun'|]. by eapply extends_trans.
    + by eexists _, _.
Qed.

Lemma call_closure_extends (c : @Closure W) s :
  exists o s',
    call_closure c s = Some (o, s')
    /\ transactionContextStack s' = transactionContextStack s
    /\ length (heap s') = length (heap s)
    /\ (forall c', exists late,
          ctx_compensations c' s' = ctx_compensations c' s ++ late)
    /\ compensation_calls (trace s')
       = compensation_calls (trace s) ++ [closure_event c].
Proof.
  unfold call_closure. rstep.
  set (s0 := mkState (heap s) (transactionContextStack s) (world s)
                     (trace s ++ [CompensationCall (clo_compensation c)
                                    (clo_result c) (clo_args c)])).
  destruct (run_script_extends
              (clo_compensation c (clo_result c) (clo_args c)) s0)
    as (o & s' & Hrun & Hst & Hlen & Harr & Hcc).
  rewrite Hrun.
  assert (Hcc0 : compensation_calls (trace s0)
                 = compensation_calls (trace s) ++ [closure_event c]).
  { subst s0. cbn. by rewrite compensation_calls_app. }
  destruct o as [x|e]; eexists _, _; (split; [reflexivity|]);
    (split; [exact Hst|]); (split; [exact Hlen|]);
    (split; [exact Harr|]); by rewrite Hcc.
Qed.

(** One step of the loop always completes; it adds at most one error. *)
Lemma rollback_step_extends (c : @Closure W) (errs : list value) s :
  exists errs' s',
    rollback_step c errs s = Some (Resolved errs', s')
    /\ length errs <= length errs' <= S (length errs)
    /\ transactionContextStack s' = transactionContextStack s
    /\ length (heap s') = length (heap s)
    /\ (forall c', exists late,
          ctx_compensations c' s' = ctx_compensations c' s ++ late)
    /\ compensation_calls (trace s')
       = compensation_calls (trace s) ++ [closure_event c].
Proof.
  destruct (call_closure_extends c s) as (o & s' & Hrun & Hrest).
  unfold rollback_step. rstep. rewrite Hrun.
  destruct o as [[]|e]; eexists _, _; (split; [reflexivity|]);
    (split; [|exact Hrest]).
  - lia.
  - unfold array_push. rewrite length_app. cbn. lia.
Qed.

(** The loop, whenever it completes: the array has only grown at its end,
    every closure of the final array from the starting index on was
    called once, in array order, and there is at most one error per
    closure called. *)
Lemma rollback_loop_runs_array fuel : forall (ctx : ref) (i : nat)
    (errs : list value) s o s',
  i <= length (ctx_compensations ctx s) ->
  rollback_loop fuel ctx i errs s = Some (o, s') ->
  exists errs' late,
    o = Resolved errs'
    /\ ctx_compensations ctx s' = ctx_compensations ctx s ++ late
    /\ compensation_calls (trace s')
       = compensation_calls (trace s)
         ++ map closure_event (drop i (ctx_compensations ctx s'))
    /\ length errs <= length errs'
    /\ length errs' + i <= length errs + length (ctx_compensations ctx s')
    /\ transactionContextStack s' = transactionContextStack s
    /\ length (heap s') = length (heap s)
    /\ (forall c', exists late',
          ctx_compensations c' s' = ctx_compensations c' s ++ late').
Proof.
  induction fuel as [|fuel IH]; intros ctx i errs s o s' Hi Hrun; [done|].
  cbn [rollback_loop] in Hrun.
  destruct (ctx_compensations ctx s !! i) as [rollback|] eqn:Hlook.
  - unfold Reentrant.bind in Hrun.
    destruct (rollback_step_extends rollback errs s)
      as (errs1 & s1 & Hstep & Hlen1 & Hst1 & Hheap1 & Harr1 & Hcc1).
    rewrite Hstep in Hrun.
    destruct (Harr1 ctx) as [late1 Hlate1].
    destruct (IH ctx (S i) errs1 s1 o s') as
      (errs' & late & -> & Harr & Hcc & Hle & Hbound & Hst & Hheap & Hall).
    { apply lookup_lt_Some in Hlook. rewrite Hlate1, length_app. lia. }
    { exact Hrun. }
    exists errs', (late1 ++ late).
    assert (Hfinal : ctx_compensations ctx s'
                     = ctx_compensations ctx s ++ late1 ++ late).
    { by rewrite Harr, Hlate1, <- app_assoc. }
    split; [reflexivity|]. split; [exact Hfinal|]. split.
    { rewrite Hcc, Hcc1, <- app_assoc. f_equal.
      assert (Hi' : ctx_compensations ctx s' !! i = Some rollback).
      { rewrite Hfinal. rewrite lookup_app_l; [exact Hlook|].
        by apply lookup_lt_Some in Hlook. }
      by rewrite (drop_S _ _ _ Hi'). }
    split; [lia|]. split; [lia|]. split; [congruence|]. split; [congruence|].
    intros c'. destruct (Harr1 c') as [l1 H1]. destruct (Hall c') as [l2 H2].
    exists (l1 ++ l2). by rewrite H2, H1, <- app_assoc.
  - injection Hrun as <- <-.
    apply lookup_ge_None_1 in Hlook.
    exists errs, []. rewrite app_nil_r.
    split; [reflexivity|]. split; [reflexivity|]. split.
    { rewrite drop_ge by lia. cbn. by rewrite app_nil_r. }
    split; [lia|]. split; [lia|]. split; [reflexivity|]. split; [reflexivity|].
    intros c'. exists []. by rewrite app_nil_r.
Qed.

(** ** The orchestrator *)

Lemma reversed_own (ctx : ref) s :
  ctx_compensations ctx (reverse_in_place ctx s) = rev (ctx_compensations ctx s).
Proof.
  unfold ctx_compensations, reverse_in_place, set_heap, ref in *. cbn.
  rewrite list_lookup_alter_eq. by destruct (heap s !! ctx) as [o|].
Qed.

(** The rollback path: the body rejected. *)
Lemma live_rollback_run fuel fn s (e : value) s1 :
  call_body fn (fresh_ctx s) (enter s) = Some (Rejected e, s1) ->
  transaction fuel fn s
  = match rollback_loop fuel (fresh_ctx s) 0 []
            (reverse_in_place (fresh_ctx s) s1) with
    | Some (Resolved errs, s2) =>
        Some (Rejected (rollback_verdict errs e),
              set_stack (array_pop (transactionContextStack s2)) s2)
    | Some (Rejected e', s2) => Some (Rejected e', s2)
    | None => None
    end.
Proof.
  intros Hbody. unfold transaction. rstep.
  unfold call_body, enter, array_push, fresh_ctx in Hbody |- *.
  unfold new_context, pushTransactionContext, compensations_reverse,
    popTransactionContext.
  cbn in Hbody |- *. rewrite Hbody.
  destruct (rollback_loop fuel _ 0 [] _) as [[[errs|e'] s2]|]; [|done|done].
  by destruct errs.
Qed.

(** After a rollback that completed, the array of the transaction's
    context is the reversal of what the body left followed by the closures
    registered during the rollback, and the rollback called every closure
    of that array once, in that order. *)
Theorem live_rollback_runs_whole_array fuel fn s (e : value) s1 o s2 :
  call_body fn (fresh_ctx s) (enter s) = Some (Rejected e, s1) ->
  transaction fuel fn s = Some (o, s2) ->
  exists late,
    ctx_compensations (fresh_ctx s) s2
    = rev (ctx_compensations (fresh_ctx s) s1) ++ late
    /\ compensation_calls (trace s2)
       = compensation_calls (trace s1)
         ++ map closure_event (rev (ctx_compensations (fresh_ctx s) s1) ++ late).
Proof.
  intros Hbody Hrun. rewrite (live_rollback_run _ _ _ _ _ Hbody) in Hrun.
  destruct (rollback_loop fuel _ 0 [] _) as [[o' s']|] eqn:Hloop; [|done].
  destruct (rollback_loop_runs_array _ _ _ _ _ _ _ (Nat.le_0_l _) Hloop)
    as (errs & late & -> & Harr & Hcc & _).
  injection Hrun as <- <-.
  rewrite reversed_own in Harr.
  exists late. split; [exact Harr|].
  change (compensation_calls (trace s')
          = compensation_calls (trace s1)
            ++ map closure_event (rev (ctx_compensations (fresh_ctx s) s1) ++ late)).
  rewrite Hcc, drop_0. by rewrite Harr.
Qed.

(** When the body fails with [e] and the rollback completes,
    [transaction] fails with [e] itself or with an [AggregateError] of the
    fixed message that holds at least one error and at most one per
    closure of the context's array as the rollback left it. *)
Theorem live_rejection_shape fuel fn s (e : value) s1 o s2 :
  call_body fn (fresh_ctx s) (enter s) = Some (Rejected e, s1) ->
  transaction fuel fn s = Some (o, s2) ->
  o = Rejected e
  \/ exists errs,
       o = Rejected (VAggregateError errs "One or more rollbacks failed")
       /\ 1 <= length errs
       /\ length errs <= length (ctx_compensations (fresh_ctx s) s2).
Proof.
  intros Hbody Hrun. rewrite (live_rollback_run _ _ _ _ _ Hbody) in Hrun.
  destruct (rollback_loop fuel _ 0 [] _) as [[o' s']|] eqn:Hloop; [|done].
  destruct (rollback_loop_runs_array _ _ _ _ _ _ _ (Nat.le_0_l _) Hloop)
    as (errs & late & -> & _ & _ & _ & Hbound & _).
  injection Hrun as <- <-.
  destruct errs as [|e1 errs]; [by left|].
  right. eexists. split; [reflexivity|].
  change (ctx_compensations (fresh_ctx s)
            (set_stack (array_pop (transactionContextStack s')) s'))
    with (ctx_compensations (fresh_ctx s) s').
  cbn in *. lia.
Qed.

(** ** Compensations that await no atomic function *)

Lemma run_script_quiet p :
  calls_no_atomic p ->
  forall s, exists o w,
    run_script p s
    = Some (o, mkState (heap s) (transactionContextStack s) w (trace s)).
Proof.
  induction p as [v|e|f k IH|action compensation _ args k IH
                 |action compensation _ ctx args k IH];
    intros Hquiet s; cbn [run_script calls_no_atomic] in *; try done.
  - exists (Resolved v), (world s). by destruct s.
  - exists (Rejected e), (world s). by destruct s.
  - rstep. unfold call_host. destruct (f (world s)) as [[x|e] w].
    + destruct (IH x (Hquiet x)
                  (mkState (heap s) (transactionContextStack s) w (trace s)))
        as (o & w' & Hrun).
      by exists o, w'.
    + by exists (Rejected e), w.
Qed.

(** A closure that awaits no atomic function registers nothing anywhere. *)
Lemma quiet_leaves_array (ctx : ref) (c : @Closure W) :
  quiet_closure c -> leaves_array ctx c.
Proof.
  intros Hquiet s o s' Hrun. unfold call_closure in Hrun. rstep.
  destruct (run_script_quiet _ Hquiet
              (mkState (heap s) (transactionContextStack s) (world s)
                 (trace s ++ [CompensationCall (clo_compensation c)
                                (clo_result c) (clo_args c)])))
    as (o' & w & Hscript).
  unfold mbind, Reentrant.M_bind, Reentrant.bind in Hrun.
  rewrite Hscript in Hrun.
  destruct o' as [x|e]; by injection Hrun as <- <-.
Qed.

Lemma rollback_step_after_call (c : @Closure W) (errs : list value) s :
  exists o errs' s',
    call_closure c s = Some (o, s')
    /\ rollback_step c errs s = Some (Resolved errs', s')
    /\ transactionContextStack s' = transactionContextStack s
    /\ compensation_calls (trace s')
       = compensation_calls (trace s) ++ [closure_event c].
Proof.
  destruct (call_closure_extends c s) as (o & s' & Hrun & Hst & _ & _ & Hcc).
  unfold rollback_step. rstep. rewrite Hrun.
  destruct o as [[]|e]; by eexists _, _, _.
Qed.

(** Over an array of closures that register nothing on the context, the
    loop completes within one step per closure plus one, calls exactly the
    closures the array held when the loop started, in array order, and
    leaves the array alone. *)
Lemma rollback_loop_leaving fuel : forall (ctx : ref) (i : nat)
    (errs : list value) s,
  Forall (leaves_array ctx) (drop i (ctx_compensations ctx s)) ->
  length (ctx_compensations ctx s) - i < fuel ->
  exists errs' s',
    rollback_loop fuel ctx i errs s = Some (Resolved errs', s')
    /\ ctx_compensations ctx s' = ctx_compensations ctx s
    /\ compensation_calls (trace s')
       = compensation_calls (trace s)
         ++ map closure_event (drop i (ctx_compensations ctx s))
    /\ transactionContextStack s' = transactionContextStack s.
Proof.
  induction fuel as [|fuel IH]; intros ctx i errs s Hleave Hfuel; [lia|].
  cbn [rollback_loop].
  destruct (ctx_compensations ctx s !! i) as [c|] eqn:Hlook.
  - rewrite (drop_S _ _ _ Hlook) in Hleave |- *.
    apply Forall_cons in Hleave as [Hc Hrest].
    destruct (rollback_step_after_call c errs s)
      as (o & errs1 & s1 & Hcall & Hstep & Hst1 & Hcc1).
    pose proof (Hc s o s1 Hcall) as Hsame.
    unfold Reentrant.bind. rewrite Hstep.
    destruct (IH ctx (S i) errs1 s1) as (errs' & s' & Hloop & Harr & Hcc & Hst).
    + by rewrite Hsame.
    + rewrite Hsame. apply lookup_lt_Some in Hlook. lia.
    + rewrite Hloop. exists errs', s'. split; [reflexivity|].
      split; [congruence|]. split; [|congruence].
      rewrite Hcc, Hcc1, Hsame, <- app_assoc. reflexivity.
  - apply lookup_ge_None_1 in Hlook.
    rewrite drop_ge by lia. cbn. rewrite app_nil_r.
    by exists errs, s.
Qed.

(** ** Bodies made of atomic calls *)

Lemma live_atomicExplicit_resolved (action : @action_fn W) compensation
    (ctx : ref) args s r w :
  action args (world s) = (Resolved r, w) ->
  atomicExplicit action compensation ctx args s
  = Some (Resolved r,
          mkState (alter (fun o => mkContext (array_push (compensations o)
                                     (mkClosure compensation r args))) ctx (heap s))
                  (transactionContextStack s) w
                  (trace s ++ [ActionCall action args])).
Proof.
  intros Haction.
  unfold atomicExplicit, call_action, compensations_push. rstep.
  by rewrite Haction.
Qed.

Lemma live_call_site_resolved (octx : option ref) (ctx : ref)
    (c : @call_site W) s r w :
  current s = Some ctx ->
  ctx < length (heap s) ->
  (forall c', octx = Some c' -> c' = ctx) ->
  (octx = None -> site_explicit c = false) ->
  site_action c (site_args c) (world s) = (Resolved r, w) ->
  exists s1,
    call_site_run octx c s = Some (Resolved r, s1)
    /\ ctx_compensations ctx s1
       = ctx_compensations ctx s ++ [mkClosure (site_compensation c) r (site_args c)]
    /\ world s1 = w
    /\ trace s1 = trace s ++ [action_event c]
    /\ transactionContextStack s1 = transactionContextStack s
    /\ length (heap s1) = length (heap s).
Proof.
  intros Hcur Hlt Hsome Hnone Haction.
  assert (Hrun : call_site_run octx c s
                 = atomicExplicit (site_action c) (site_compensation c) ctx
                                  (site_args c) s).
  { unfold call_site_run. destruct (site_explicit c) eqn:Hform.
    - destruct octx as [c'|]; [by rewrite (Hsome c' eq_refl)|].
      specialize (Hnone eq_refl). congruence.
    - unfold atomic, atomicExplicit, getCurrentTransactionContext. rstep.
      unfold current in Hcur. by rewrite Hcur. }
  rewrite Hrun, (live_atomicExplicit_resolved _ _ ctx _ _ _ _ Haction).
  eexists. split; [reflexivity|]. split.
  { unfold ctx_compensations, ref in *. cbn. rewrite list_lookup_alter_eq.
    destruct (lookup_lt_is_Some_2 _ _ Hlt) as [o Ho]. by rewrite Ho. }
  cbn. repeat split. apply length_alter.
Qed.

Lemma live_atomic_calls_resolved sites : forall (octx : option ref) (ctx : ref)
    s results w1,
  current s = Some ctx ->
  ctx < length (heap s) ->
  (forall c, octx = Some c -> c = ctx) ->
  (octx = None -> Forall (fun c => site_explicit c = false) sites) ->
  actions_resolve sites (world s) = Some (results, w1) ->
  exists s1,
    atomic_calls octx sites s = Some (Resolved tt, s1)
    /\ ctx_compensations ctx s1 = ctx_compensations ctx s ++ registered sites results
    /\ world s1 = w1
    /\ trace s1 = trace s ++ map action_event sites.
Proof.
  induction sites as [|c sites IH]; intros octx ctx s results w1 Hcur Hlt Hsome Hnone Hres.
  - cbn in Hres. injection Hres as <- <-.
    exists s. cbn. by rewrite !app_nil_r.
  - cbn [actions_resolve] in Hres.
    destruct (site_action c (site_args c) (world s)) as [[r|e] w] eqn:Haction; [|done].
    destruct (actions_resolve sites w) as [[rs w2]|] eqn:Hrest; [|done].
    injection Hres as <- <-.
    destruct (live_call_site_resolved octx ctx c s r w Hcur Hlt Hsome)
      as (s' & Hrun & Hcs & Hw & Htr & Hst & Hlen); [|exact Haction|].
    { intros Hn. specialize (Hnone Hn). by inversion Hnone. }
    destruct (IH octx ctx s' rs w2) as (s1 & Hrun1 & Hcs1 & Hw1 & Htr1).
    + unfold current. by rewrite Hst.
    + by rewrite Hlen.
    + exact Hsome.
    + intros Hn. specialize (Hnone Hn). by inversion Hnone.
    + by rewrite Hw.
    + exists s1. cbn [atomic_calls registered map]. rstep. rewrite Hrun.
      split; [exact Hrun1|].
      split; [by rewrite Hcs1, Hcs, <- app_assoc|].
      split; [exact Hw1|].
      by rewrite Htr1, Htr, <- app_assoc.
Qed.

Lemma live_registered_length sites : forall results (w w1 : W),
  actions_resolve sites w = Some (results, w1) ->
  length (registered sites results) = length sites.
Proof.
  induction sites as [|c sites IH]; intros results w w1 Hres; [reflexivity|].
  cbn [actions_resolve] in Hres.
  destruct (site_action c (site_args c) w) as [[r|e] w'] eqn:Haction; [|done].
  destruct (actions_resolve sites w') as [[rs w2]|] eqn:Hrest; [|done].
  injection Hres as <- <-. cbn. f_equal. by eapply IH.
Qed.

Lemma action_events_no_compensation sites :
  compensation_calls (map action_event sites) = [].
Proof. induction sites as [|c sites IH]; [reflexivity|exact IH]. Qed.

Lemma live_enter_current s : current (enter s) = Some (fresh_ctx s).
Proof.
  unfold current, enter. cbn. rewrite array_at_last.
  unfold array_push. apply last_snoc.
Qed.

Lemma live_enter_fresh_empty s : ctx_compensations (fresh_ctx s) (enter s) = [].
Proof.
  unfold ctx_compensations, enter, fresh_ctx. cbn.
  by rewrite list_lookup_middle.
Qed.

(** C1, as the code has it: a transaction whose body makes N successful
    atomic calls and then fails, and none of whose compensations registers
    a compensation on the transaction's own context, completes its rollback
    and calls exactly the N registered compensations, the most recently
    registered first, each with the result its action returned and the
    arguments of its call. *)
Theorem live_rollback_reverse_order (params : nat) sites (error : value) s
    (results : list value) (w1 : W) (fuel : nat) :
  sites_fit params sites ->
  actions_resolve sites (world s) = Some (results, w1) ->
  Forall (leaves_array (fresh_ctx s)) (registered sites results) ->
  length sites < fuel ->
  exists raised s2,
    transaction fuel (calls_then_throw params sites error) s
    = Some (Rejected raised, s2)
    /\ compensation_calls (trace s2)
       = compensation_calls (trace s)
         ++ map closure_event (rev (registered sites results))
    /\ length (registered sites results) = length sites.
Proof.
  intros Hfit Hres Hleave Hfuel.
  set (octx := if 0 <? params then Some (fresh_ctx s) else None).
  destruct (live_atomic_calls_resolved sites octx (fresh_ctx s) (enter s) results w1)
    as (s1 & Hrun & Hcs & Hw & Htr).
  - apply live_enter_current.
  - unfold enter, fresh_ctx. cbn. rewrite length_app. cbn. lia.
  - subst octx. intros c. destruct (0 <? params); congruence.
  - subst octx. destruct params; [intros _; by apply Hfit|done].
  - exact Hres.
  - rewrite live_enter_fresh_empty in Hcs. cbn in Hcs.
    pose proof (live_registered_length _ _ _ _ Hres) as Hlen.
    assert (Hbody : call_body (calls_then_throw params sites error)
                      (fresh_ctx s) (enter s) = Some (Rejected error, s1)).
    { unfold call_body, calls_then_throw. cbn [fn_length fn_call].
      revert Hrun. subst octx.
      destruct (0 <? params); intros Hrun; rstep; by rewrite Hrun. }
    rewrite (live_rollback_run _ _ _ _ _ Hbody).
    destruct (rollback_loop_leaving fuel (fresh_ctx s) 0 []
                (reverse_in_place (fresh_ctx s) s1))
      as (errs & s2 & Hloop & _ & Hcc & _).
    + rewrite drop_0, reversed_own, Hcs. by apply Forall_rev.
    + rewrite reversed_own, Hcs, length_rev, Hlen. lia.
    + rewrite Hloop. rewrite drop_0, reversed_own, Hcs in Hcc.
      eexists _, _. split; [reflexivity|].
      split; [|exact Hlen].
      change (compensation_calls (trace s2)
              = compensation_calls (trace s)
                ++ map closure_event (rev (registered sites results))).
      rewrite Hcc. f_equal.
      change (trace (reverse_in_place (fresh_ctx s) s1)) with (trace s1).
      change (trace (enter s)) with (trace s) in Htr.
      by rewrite Htr, compensation_calls_app, action_events_no_compensation,
        app_nil_r.
Qed.

End ReentrantFacts.

(** * Compensations that call the library: scenarios *)

Section ReentrantRuns.

Import Reentrant.

(** The body makes two successful atomic calls and throws; the second
    compensation awaits an atomic function during the rollback.  Its
    closure lands on the array being rolled back and is called in the same
    pass: three compensation calls for two registered compensations, the
    last of them registered after the others and run after them. *)
Lemma late_closure_runs_in_same_pass :
  actions_resolve reentrant_sites (world start)
  = Some ([VNumber 6; VNumber 6], [])
  /\ exists s2,
       transaction 4 (calls_then_throw 0 reentrant_sites (VError "Transaction error"))
                   start
       = Some (Rejected (VError "Transaction error"), s2)
       /\ trace s2
          = [ActionCall (Sample.plus 1) [VNumber 5];
             ActionCall (Sample.times 3) [VNumber 2];
             CompensationCall reentrant (VNumber 6) [VNumber 2];
             ActionCall (Sample.plus 1) [VNumber 1];
             CompensationCall (record "compensation1") (VNumber 6) [VNumber 5];
             CompensationCall (record "late") (VNumber 2) [VNumber 1]]
       /\ length (compensation_calls (trace s2)) = 3
       /\ length (registered reentrant_sites [VNumber 6; VNumber 6]) = 2.
Proof.
  split; [reflexivity|].
  exists (final_state
            (transaction 4 (calls_then_throw 0 reentrant_sites
                              (VError "Transaction error")) start)).
  split; [vm_compute; reflexivity|].
  split; [vm_compute; reflexivity|].
  split; vm_compute; reflexivity.
Qed.

Lemma live_rollback_reverse_order_witness :
  exists raised s2,
    transaction 3 (calls_then_throw 0 recording_sites (VError "Transaction error"))
                start
    = Some (Rejected raised, s2)
    /\ compensation_calls (trace s2)
       = [] ++ [CompensationCall (record "compensation2") (VNumber 6) [VNumber 2];
               CompensationCall (record "compensation1") (VNumber 6) [VNumber 5]]
    /\ length (registered recording_sites [VNumber 6; VNumber 6])
       = length recording_sites.
Proof.
  refine (live_rollback_reverse_order 0 recording_sites (VError "Transaction error")
            start [VNumber 6; VNumber 6] [] 3 _ eq_refl _ _).
  - intros _. repeat constructor.
  - repeat constructor; apply quiet_leaves_array; intros x; exact I.
  - cbn. lia.
Defined.

Lemma live_rollback_runs_whole_array_witness :
  exists (o : outcome value) s1 s2,
    call_body (calls_then_throw 0 reentrant_sites (VError "Transaction error"))
              (fresh_ctx start) (enter start)
    = Some (Rejected (VError "Transaction error"), s1)
    /\ transaction 4 (calls_then_throw 0 reentrant_sites (VError "Transaction error"))
                    start
       = Some (o, s2)
    /\ exists late,
         ctx_compensations (fresh_ctx start) s2
         = rev (ctx_compensations (fresh_ctx start) s1) ++ late
         /\ compensation_calls (trace s2)
            = compensation_calls (trace s1)
              ++ map closure_event
                   (rev (ctx_compensations (fresh_ctx start) s1) ++ late).
Proof.
  exists (Rejected (VError "Transaction error")).
  exists (final_state (call_body (calls_then_throw 0 reentrant_sites
                                    (VError "Transaction error"))
                                 (fresh_ctx start) (enter start))).
  exists (final_state (transaction 4 (calls_then_throw 0 reentrant_sites
                                        (VError "Transaction error")) start)).
  split; [vm_compute; reflexivity|].
  split; [vm_compute; reflexivity|].
  refine (live_rollback_runs_whole_array 4
            (calls_then_throw 0 reentrant_sites (VError "Transaction error")) start
            (VError "Transaction error") _ (Rejected (VError "Transaction error"))
            _ _ _); vm_compute; reflexivity.
Defined.

Lemma live_rejection_shape_witness :
  exists (o : outcome value) s2,
    transaction 3 (calls_then_throw 0 broken_sites (VError "Transaction error")) start
    = Some (o, s2)
    /\ (o = Rejected (VError "Transaction error")
        \/ exists errs,
             o = Rejected (VAggregateError errs "One or more rollbacks failed")
             /\ 1 <= length errs
             /\ length errs <= length (ctx_compensations (fresh_ctx start) s2)).
Proof.
  exists (Rejected (VAggregateError
                      [VError "Compensation failure 2"; VError "Compensation failure 1"]
                      "One or more rollbacks failed")).
  exists (final_state (transaction 3 (calls_then_throw 0 broken_sites
                                        (VError "Transaction error")) start)).
  split; [vm_compute; reflexivity|].
  refine (live_rejection_shape 3
            (calls_then_throw 0 broken_sites (VError "Transaction error")) start
            (VError "Transaction error")
            (final_state (call_body (calls_then_throw 0 broken_sites
                                       (VError "Transaction error"))
                                    (fresh_ctx start) (enter start)))
            _ _ _ _); vm_compute; reflexivity.
Defined.

End ReentrantRuns.
